(** * reshuffle_portfolio: scoring engine and composition engine

    A shallow embedding of [src/services/scoring.ts] and
    [src/services/composition.ts] (with the block builder's base fields),
    and the properties of the portfolio pipeline proved over it.

    Conventions of the embedding.
    - A JavaScript [number] is an exact rational ([Q]); NaN and the
      infinities are not values of the model and rounding of binary
      floating point is not modelled.  An optional numeric field is an
      [option Q]; it is truthy when present and non-zero.
    - A string is a [string] of bytes; [toLowerCase] folds the ASCII
      letters.  An optional string field is truthy when present and
      non-empty.
    - [new Date(s).getTime()] is the function [Date_parse] (milliseconds
      since the epoch, [None] for an invalid date); the wall clock is an
      explicit argument.
    - [Array.prototype.sort] is a stable sort driven by the comparator's
      sign, as ECMAScript 2019 requires.
    - A [Map] is a [gmap], a [Set] is a [gset]; a failed non-null assertion
      that the code dereferences, or an [undefined] result, is [None]. *)

From Stdlib Require Import ZArith QArith Qround Qminmax Lqa Lia String Ascii.
From Stdlib Require Import Sorting.Sorted Sorting.Permutation.
From stdpp Require Import gmap strings list.

Set Default Proof Using "Type".

(* ================================================================= *)
(** ** Closed enumerations ([types/content.ts], [types/portfolio.ts]) *)

Inductive Category : Type :=
  | Finance | Entertainment | Design | Legal
  | Tech | Marketing | Influencers | Business.

Inductive ContentType : Type :=
  | ct_video | ct_image | ct_pdf | ct_text | ct_code | ct_external_link.

Inductive ContentSource : Type :=
  | src_youtube | src_github | src_upload | src_input | src_instagram
  | src_linkedin | src_tiktok | src_twitter | src_behance | src_dribbble
  | src_website | src_other.

Inductive TextType : Type :=
  | tt_bio | tt_intro | tt_about | tt_testimonial | tt_description | tt_general.

Inductive SectionId : Type :=
  | s_hook | s_credibility | s_work | s_process | s_action.

Inductive BlockType : Type :=
  | bt_media | bt_expandable_text | bt_hotspot_media | bt_scroll_container
  | bt_metric | bt_comparison | bt_cta | bt_timeline | bt_gallery
  | bt_external_link.

#[global] Instance Category_eq_dec : EqDecision Category.
Proof. solve_decision. Defined.
#[global] Instance ContentType_eq_dec : EqDecision ContentType.
Proof. solve_decision. Defined.
#[global] Instance ContentSource_eq_dec : EqDecision ContentSource.
Proof. solve_decision. Defined.
#[global] Instance TextType_eq_dec : EqDecision TextType.
Proof. solve_decision. Defined.
#[global] Instance SectionId_eq_dec : EqDecision SectionId.
Proof. solve_decision. Defined.
#[global] Instance BlockType_eq_dec : EqDecision BlockType.
Proof. solve_decision. Defined.

(** [a === b] of the source on enumerated strings. *)
Definition eqb {A : Type} `{EqDecision A} (a b : A) : bool := bool_decide (a = b).

(** [xs.includes(x)] *)
Definition includes {A : Type} `{EqDecision A} (xs : list A) (x : A) : bool :=
  existsb (eqb x) xs.

(* ================================================================= *)
(** ** Content records ([types/content.ts]) *)

(** The fields of [ExtractedData] that the scorer and the composer read. *)
Record ExtractedData : Type := mkExtractedData {
  thumbnail_url : option string;
  view_count : option Q;
  like_count : option Q;
  duration_seconds : option Q;
  stars : option Q;
  readme_preview : option string;
  is_profile : option bool;
  width : option Q;
  height : option Q;
  page_count : option Q;
  extracted_text : option string;
  is_resume : option bool;
  text_type : option TextType
}.

Record NormalizedContent : Type := mkNormalizedContent {
  content_id : string;
  type : ContentType;
  source : ContentSource;
  original_url : option string;
  file_path : option string;
  title : string;
  description : string;
  extracted_data : option ExtractedData;
  created_at : string
}.

Record ContentScores : Type := mkContentScores {
  relevance : Q;
  quality : Q;
  credibility : Q;
  engagement : Q;
  freshness : Q
}.

(** [ScoredContent extends NormalizedContent]: the spread [...content]
    is the field [normalized], read through as a coercion. *)
Record ScoredContent : Type := mkScoredContent {
  normalized :> NormalizedContent;
  scores : ContentScores;
  final_score : Q
}.

(* ================================================================= *)
(** ** JavaScript values: truthiness, optional chaining, comparisons *)

Module Js.

Open Scope Q_scope.

(** [x > y], [x >= y], [x < y] on numbers. *)
Definition gt (x y : Q) : bool := negb (Qle_bool x y).
Definition ge (x y : Q) : bool := Qle_bool y x.
Definition lt (x y : Q) : bool := negb (Qle_bool y x).

(** A number is truthy unless it is zero. *)
Definition truthy_num (x : Q) : bool := negb (Qeq_bool x 0).

(** A string is truthy unless it is empty. *)
Definition truthy_str (s : string) : bool :=
  match s with EmptyString => false | String _ _ => true end.

(** [content.extracted_data?.f] *)
Definition chain {A : Type} (ed : option ExtractedData)
    (f : ExtractedData -> option A) : option A :=
  match ed with Some d => f d | None => None end.

(** [if (x)] for an optional number, an optional string, an optional flag. *)
Definition is_num (o : option Q) : bool :=
  match o with Some x => truthy_num x | None => false end.
Definition is_str (o : option string) : bool :=
  match o with Some s => truthy_str s | None => false end.
Definition is_flag (o : option bool) : bool :=
  match o with Some b => b | None => false end.

(** The value read from a field already known to be truthy. *)
Definition num (o : option Q) : Q := match o with Some x => x | None => 0 end.
Definition str (o : option string) : string :=
  match o with Some s => s | None => EmptyString end.

(** [s || ''] *)
Definition or_empty (o : option string) : string :=
  if is_str o then str o else EmptyString.

(** [Math.round(x)]: the nearest integer, halves upwards. *)
Definition round (x : Q) : Z := Qfloor (x + 0.5).

(** [s.toLowerCase()] on ASCII letters. *)
Definition lower_ascii (c : ascii) : ascii :=
  let n := nat_of_ascii c in
  if (Nat.leb 65 n && Nat.leb n 90)%bool then ascii_of_nat (n + 32) else c.

Fixpoint toLowerCase (s : string) : string :=
  match s with
  | EmptyString => EmptyString
  | String c r => String (lower_ascii c) (toLowerCase r)
  end.

(** [s.includes(k)]: [k] occurs in [s] as a substring. *)
Fixpoint str_includes (s k : string) : bool :=
  (String.prefix k s
   || match s with
      | EmptyString => false
      | String _ r => str_includes r k
      end)%bool.

(** [xs.sort(cmp)]: [b] is moved in front of [a] only when
    [cmp a b > 0]; elements that compare [<= 0] keep their order. *)
Section Sort.
Context {A : Type} (cmp : A -> A -> Q).

Fixpoint sort_insert (x : A) (l : list A) : list A :=
  match l with
  | [] => [x]
  | y :: r => if gt (cmp x y) 0 then y :: sort_insert x r else x :: y :: r
  end.

Definition sort (l : list A) : list A := foldr sort_insert [] l.
End Sort.

End Js.

(* ================================================================= *)
(** ** Scoring engine ([services/scoring.ts]) *)

Module Scoring.

Open Scope Q_scope.
Import Js.

Definition CATEGORY_WEIGHTS (category : Category) : ContentScores :=
  match category with
  | Finance => mkContentScores 0.25 0.20 0.35 0.10 0.10
  | Entertainment => mkContentScores 0.20 0.30 0.10 0.30 0.10
  | Design => mkContentScores 0.25 0.35 0.10 0.20 0.10
  | Legal => mkContentScores 0.20 0.15 0.40 0.05 0.20
  | Tech => mkContentScores 0.30 0.25 0.20 0.15 0.10
  | Marketing => mkContentScores 0.25 0.20 0.15 0.30 0.10
  | Influencers => mkContentScores 0.15 0.25 0.10 0.40 0.10
  | Business => mkContentScores 0.25 0.15 0.35 0.10 0.15
  end.

Definition CATEGORY_KEYWORDS (category : Category) : list string :=
  match category with
  | Finance =>
      ["finance"; "financial"; "investment"; "banking"; "accounting"; "cfo";
       "revenue"; "profit"; "roi"; "portfolio"; "audit"; "tax"; "budget";
       "forecast"; "valuation"; "equity"; "debt"; "capital"; "cash flow"]
  | Entertainment =>
      ["entertainment"; "film"; "music"; "video"; "content"; "creative";
       "production"; "acting"; "directing"; "streaming"; "media"; "show";
       "performance"; "artist"; "celebrity"; "viral"; "views"]
  | Design =>
      ["design"; "ui"; "ux"; "graphic"; "visual"; "brand"; "logo"; "creative";
       "interface"; "prototype"; "figma"; "sketch"; "adobe"; "illustration";
       "typography"; "color"; "layout"; "wireframe"; "aesthetic"]
  | Legal =>
      ["legal"; "law"; "attorney"; "lawyer"; "litigation"; "contract";
       "compliance"; "regulation"; "court"; "case"; "settlement"; "rights";
       "intellectual property"; "patent"; "trademark"; "counsel"]
  | Tech =>
      ["tech"; "technology"; "software"; "engineering"; "developer"; "code";
       "programming"; "api"; "cloud"; "data"; "ai"; "machine learning";
       "startup"; "product"; "architecture"; "system"; "scale"; "devops"]
  | Marketing =>
      ["marketing"; "growth"; "seo"; "sem"; "social"; "campaign"; "brand";
       "conversion"; "analytics"; "content"; "digital"; "advertising";
       "engagement"; "reach"; "impression"; "click"; "lead"; "funnel"]
  | Influencers =>
      ["influencer"; "creator"; "followers"; "viral"; "social media";
       "instagram"; "tiktok"; "youtube"; "brand deal"; "sponsorship";
       "engagement rate"; "audience"; "content creator"; "reach"]
  | Business =>
      ["business"; "strategy"; "consulting"; "management"; "operations";
       "startup"; "entrepreneur"; "ceo"; "founder"; "leadership"; "growth";
       "scale"; "revenue"; "team"; "process"; "efficiency"; "optimization"]
  end%string.

(** The [for] loop of [scoreRelevance] that counts the matching keywords. *)
Definition matchCount (searchText : string) (keywords : list string) : nat :=
  foldl (fun n keyword =>
           if str_includes searchText (toLowerCase keyword) then S n else n)
        0%nat keywords.

Definition scoreRelevance (c : NormalizedContent) (category : Category) : Q :=
  let keywords := CATEGORY_KEYWORDS category in
  let extractedText := or_empty (chain (extracted_data c) extracted_text) in
  let searchText :=
    toLowerCase (title c ++ " " ++ description c ++ " " ++ extractedText)%string in
  let relevance :=
    Qmin (inject_Z (Z.of_nat (matchCount searchText keywords)) / 5) 1 in
  let typeBoost := 0 in
  let typeBoost :=
    if (eqb category Tech && eqb (source c) src_github)%bool then 0.2 else typeBoost in
  let typeBoost :=
    if (eqb category Entertainment && eqb (type c) ct_video)%bool then 0.2 else typeBoost in
  let typeBoost :=
    if (eqb category Design && eqb (type c) ct_image)%bool then 0.2 else typeBoost in
  let typeBoost :=
    if (eqb category Finance && eqb (type c) ct_pdf)%bool then 0.1 else typeBoost in
  Qmin (relevance + typeBoost) 1.

(** The range that every score is declared to have. *)
Definition unit_interval (x : Q) : Prop := 0 <= x <= 1.

(** [if (cond) score += d] *)
Definition bump (cond : bool) (d : Q) (score : Q) : Q :=
  if cond then score + d else score.

Definition scoreQuality (c : NormalizedContent) : Q :=
  let ed := extracted_data c in
  let score := 0.5 in
  let score := bump (is_str (chain ed thumbnail_url)) 0.1 score in
  let score :=
    bump (truthy_str (description c)
          && Nat.ltb 50 (String.length (description c)))%bool 0.1 score in
  let score :=
    if eqb (type c) ct_video then
      let w := chain ed width in
      let h := chain ed height in
      let score :=
        if (is_num w && is_num h)%bool then
          let score := bump (ge (num w) 1280 || ge (num h) 720)%bool 0.15 score in
          bump (ge (num w) 3840 || ge (num h) 2160)%bool 0.1 score
        else score in
      bump (is_num (chain ed duration_seconds)
            && gt (num (chain ed duration_seconds)) 0)%bool 0.1 score
    else score in
  let score :=
    if eqb (type c) ct_image then
      let w := chain ed width in
      let h := chain ed height in
      bump (is_num w && is_num h && ge (num w) 1000 && ge (num h) 1000)%bool
           0.15 score
    else score in
  let score :=
    if (eqb (type c) ct_pdf && is_str (chain ed extracted_text))%bool then
      let score := score + 0.15 in
      bump (is_num (chain ed page_count)
            && gt (num (chain ed page_count)) 1)%bool 0.05 score
    else score in
  let score :=
    if (eqb (source c) src_github && is_str (chain ed readme_preview))%bool then
      bump (Nat.ltb 200 (String.length (str (chain ed readme_preview)))) 0.15 score
    else score in
  Qmin score 1.

Definition scoreCredibility (c : NormalizedContent) : Q :=
  let ed := extracted_data c in
  let score := 0.3 in
  let trustedSources := [src_youtube; src_github] in
  let score := bump (includes trustedSources (source c)) 0.2 score in
  let score :=
    if eqb (source c) src_youtube then
      let views := chain ed view_count in
      if is_num views then
        let score := bump (gt (num views) 1000) 0.1 score in
        let score := bump (gt (num views) 10000) 0.1 score in
        bump (gt (num views) 100000) 0.1 score
      else score
    else score in
  let score :=
    if eqb (source c) src_github then
      let stars := chain ed stars in
      if is_num stars then
        let score := bump (gt (num stars) 10) 0.1 score in
        let score := bump (gt (num stars) 100) 0.1 score in
        bump (gt (num stars) 1000) 0.15 score
      else score
    else score in
  let score := bump (eqb (type c) ct_pdf) 0.15 score in
  let score := bump (eqb (type c) ct_external_link) (- 0.1) score in
  Qmax 0 (Qmin score 1).

Definition scoreEngagement (c : NormalizedContent) : Q :=
  let ed := extracted_data c in
  let score := 0.3 in
  let score := bump (eqb (type c) ct_video) 0.25 score in
  let score := bump (eqb (type c) ct_image) 0.2 score in
  let score :=
    if eqb (source c) src_youtube then
      let views := chain ed view_count in
      let score :=
        if is_num views then
          let score := bump (gt (num views) 10000) 0.15 score in
          bump (gt (num views) 100000) 0.15 score
        else score in
      let likes := chain ed like_count in
      if (is_num likes && is_num views)%bool then
        let ratio := num likes / num views in
        bump (gt ratio 0.03) 0.1 score
      else score
    else score in
  let score :=
    if eqb (type c) ct_external_link then
      let socialPlatforms := [src_instagram; src_tiktok; src_linkedin] in
      bump (includes socialPlatforms (source c)) 0.15 score
    else score in
  let score :=
    bump (eqb (type c) ct_text || eqb (type c) ct_pdf)%bool (- 0.1) score in
  Qmax 0 (Qmin score 1).

(** [1000 * 60 * 60 * 24] *)
Definition ms_per_day : Z := 1000 * 60 * 60 * 24.

Section Clock.
(** [new Date(s).getTime()], in milliseconds; [None] is an invalid date,
    whose time value is NaN. *)
Variable Date_parse : string -> option Z.

(** [(now.getTime() - createdAt.getTime()) / (1000 * 60 * 60 * 24)];
    [None] is NaN. *)
Definition ageInDays (now : Z) (c : NormalizedContent) : option Q :=
  match Date_parse (created_at c) with
  | Some createdAt => Some (inject_Z (now - createdAt) / inject_Z ms_per_day)
  | None => None
  end.

(** Every comparison with NaN is false, so an invalid date falls
    through to the last [return]. *)
Definition scoreFreshness (now : Z) (c : NormalizedContent) : Q :=
  match ageInDays now c with
  | Some age =>
      if lt age 30 then 1.0
      else if lt age 90 then 0.8
      else if lt age 365 then 0.6
      else if lt age 730 then 0.4
      else 0.2
  | None => 0.2
  end.

Definition scoreContent (now : Z) (c : NormalizedContent) (category : Category)
    : ScoredContent :=
  let scores :=
    {| relevance := scoreRelevance c category;
       quality := scoreQuality c;
       credibility := scoreCredibility c;
       engagement := scoreEngagement c;
       freshness := scoreFreshness now c |} in
  let weights := CATEGORY_WEIGHTS category in
  let finalScore :=
    relevance scores * relevance weights +
    quality scores * quality weights +
    credibility scores * credibility weights +
    engagement scores * engagement weights +
    freshness scores * freshness weights in
  {| normalized := c;
     scores := scores;
     final_score := inject_Z (round (finalScore * 100)) / 100 |}.

(** [contents.map(c => scoreContent(c, category)).sort(...)].  Each call
    of [scoreContent] reads the wall clock: [clock i] is the reading
    during the call for the item at index [i]. *)
Definition scoreContentBatch (clock : nat -> Z)
    (contents : list NormalizedContent) (category : Category)
    : list ScoredContent :=
  sort (fun a b => final_score b - final_score a)
       (imap (fun i c => scoreContent (clock i) c category) contents).
End Clock.

End Scoring.

(* ================================================================= *)
(** ** Portfolio document ([types/portfolio.ts]) *)

Inductive BlockInitial : Type := expanded | collapsed.
Inductive BlockPriority : Type := high | medium | low.
Inductive Padding : Type := pad_none | pad_small | pad_medium | pad_large.
Inductive Layout : Type := full | contained | split.
Inductive SectionInitial : Type := sec_visible | sec_collapsed.

Record BlockVisibility : Type := mkBlockVisibility {
  initial : BlockInitial;
  priority : BlockPriority
}.

Record BlockStyle : Type := mkBlockStyle { padding : Padding }.

(** An action of a [cta] block; [payload] is the list of its entries. *)
Record CTAAction : Type := mkCTAAction {
  label : string;
  action_type : string;
  payload : list (string * string);
  action_style : option string
}.

(** The base fields shared by the ten block variants. *)
Record BlockOf (C : Type) : Type := mkBlock {
  block_id : string;
  block_type : BlockType;
  content : C;
  visibility : BlockVisibility;
  style : BlockStyle
}.
Arguments mkBlock {C}.
Arguments block_id {C}.
Arguments block_type {C}.
Arguments content {C}.
Arguments visibility {C}.
Arguments style {C}.

(** The type-specific [content] of a block.  The payload of a [cta] block
    and the children of a [scroll_container] are spelled out; the payload
    that another builder renders from a content item is kept as that
    item ([Rendered]), with the clock reading it embeds for a timeline. *)
#[local] Set Warnings "-register-all".
Inductive BlockContent : Type :=
  | CTAContent (primary_action : CTAAction)
               (secondary_action : option CTAAction)
               (urgency_text : option string)
  | ScrollContainerContent (children : list (BlockOf BlockContent))
  | TimelineContent (date : string) (item : ScoredContent)
  | Rendered (item : ScoredContent).

Definition Block : Type := BlockOf BlockContent.

Record SectionVisibility : Type := mkSectionVisibility {
  sec_initial : SectionInitial;
  min_content_required : nat
}.

Record PSection : Type := mkSection {
  section_id : SectionId;
  order : Q;
  layout : Layout;
  sec_visibility : SectionVisibility;
  blocks : list Block
}.

Record PortfolioMeta : Type := mkPortfolioMeta {
  meta_title : string;
  meta_subtitle : string;
  meta_created_at : string;
  meta_updated_at : string;
  language : string;
  theme : string
}.

Record QuickNavItem : Type := mkQuickNavItem {
  nav_label : string;
  target_section : SectionId;
  icon : string
}.

Record DeepLinks : Type := mkDeepLinks {
  dl_enabled : bool;
  base_url : string;
  section_format : string;
  block_format : string
}.

Record StatePreservation : Type := mkStatePreservation {
  sp_enabled : bool;
  restore_scroll_position : bool;
  restore_expanded_state : bool
}.

Record QuickNav : Type := mkQuickNav {
  qn_enabled : bool;
  items : list QuickNavItem
}.

Record Navigation : Type := mkNavigation {
  anchors : gmap string string;
  deep_links : DeepLinks;
  state_preservation : StatePreservation;
  quick_nav : QuickNav
}.

Record Analytics : Type := mkAnalytics {
  an_enabled : bool;
  track_events : list string
}.

Record Portfolio : Type := mkPortfolio {
  portfolio_id : string;
  user_id : string;
  category : Category;
  version : string;
  meta : PortfolioMeta;
  sections : list PSection;
  navigation : Navigation;
  analytics : Analytics
}.

Record ComposeOptions : Type := mkComposeOptions {
  userId : string;
  opt_category : Category;
  opt_title : string;
  opt_subtitle : string
}.

(* ================================================================= *)
(** ** Identifiers and timestamps ([utils/helpers.ts]) *)

(** What a composition has consumed of its environment so far: the number
    of UUIDs drawn and the number of readings of the wall clock. *)
Record World : Type := mkWorld {
  uuids_drawn : nat;
  clock_reads : nat
}.

(** A computation that draws identifiers and reads the clock, and that
    stops with [None] where the source would throw a [TypeError]. *)
Definition M (A : Type) : Type := World -> option (A * World).

Definition ret {A : Type} (a : A) : M A := fun w => Some (a, w).

Definition bind {A B : Type} (m : M A) (k : A -> M B) : M B :=
  fun w => match m w with
           | Some (a, w') => k a w'
           | None => None
           end.

(** The value of [x!] when it is dereferenced. *)
Definition assert_defined {A : Type} (o : option A) : M A :=
  fun w => match o with Some a => Some (a, w) | None => None end.

Declare Scope M_scope.
Delimit Scope M_scope with M.
Notation "'let!' x ':=' m 'in' k" := (bind m (fun x => k))
  (at level 10, x name, m at level 100, k at level 200, only parsing) : M_scope.

(** [xs.map(f)] for an [f] that runs in [M], left to right. *)
Fixpoint mapM {A B : Type} (f : A -> M B) (xs : list A) : M (list B) :=
  match xs with
  | [] => ret []
  | x :: r => (let! y := f x in let! ys := mapM f r in ret (y :: ys))%M
  end.

(** [for (const x of xs) acc = f(acc, x)] in [M]. *)
Fixpoint foldM {A S : Type} (f : S -> A -> M S) (acc : S) (xs : list A) : M S :=
  match xs with
  | [] => ret acc
  | x :: r => (let! acc' := f acc x in foldM f acc' r)%M
  end.

(** The same loop when the body can only fail. *)
Fixpoint foldO {A S : Type} (f : S -> A -> option S) (acc : S) (xs : list A)
    : option S :=
  match xs with
  | [] => Some acc
  | x :: r => match f acc x with Some acc' => foldO f acc' r | None => None end
  end.

Module Helpers.

Section Environment.
(** [uuidv4 n] is the [n]-th UUID handed out; [toISOString n] is
    [new Date().toISOString()] at the [n]-th reading of the clock. *)
Variable uuidv4 : nat -> string.
Variable toISOString : nat -> string.

(** [s.replace(/-/g, '')] *)
Fixpoint remove_dashes (s : string) : string :=
  match s with
  | EmptyString => EmptyString
  | String c r =>
      if Ascii.eqb c "-"%char then remove_dashes r else String c (remove_dashes r)
  end.

Definition generateId (prefix : string) : M string :=
  fun w =>
    let id := String.substring 0 12 (remove_dashes (uuidv4 (uuids_drawn w))) in
    let w' := {| uuids_drawn := S (uuids_drawn w); clock_reads := clock_reads w |} in
    Some (if Js.truthy_str prefix then (prefix ++ "_" ++ id)%string else id, w').

Definition generateBlockId : M string := generateId "b".
Definition generatePortfolioId : M string := generateId "p".

Definition now : M string :=
  fun w =>
    Some (toISOString (clock_reads w),
          {| uuids_drawn := uuids_drawn w; clock_reads := S (clock_reads w) |}).

End Environment.

End Helpers.

(* ================================================================= *)
(** ** Block builder: base fields and dispatch ([buildBlock]) *)

Module BlockBuilder.

Import Js.
Open Scope M_scope.

(** [baseBlock] of [buildBlock]. *)
Record BaseBlock : Type := mkBaseBlock {
  base_block_id : string;
  base_visibility : BlockVisibility;
  base_style : BlockStyle
}.

(** [{ ...base, block_type, content }] *)
Definition with_base (base : BaseBlock) (bt : BlockType) (c : BlockContent) : Block :=
  {| block_id := base_block_id base;
     block_type := bt;
     content := c;
     visibility := base_visibility base;
     style := base_style base |}.

Definition buildMediaBlock (c : ScoredContent) (base : BaseBlock) : Block :=
  with_base base bt_media (Rendered c).

Definition buildExpandableTextBlock (c : ScoredContent) (base : BaseBlock) : Block :=
  with_base base bt_expandable_text (Rendered c).

Definition buildMetricBlock (c : ScoredContent) (base : BaseBlock) : Block :=
  with_base base bt_metric (Rendered c).

Definition buildComparisonBlock (c : ScoredContent) (base : BaseBlock) : Block :=
  with_base base bt_comparison (Rendered c).

Definition buildGalleryBlock (c : ScoredContent) (base : BaseBlock) : Block :=
  with_base base bt_gallery (Rendered c).

Definition buildExternalLinkBlock (c : ScoredContent) (base : BaseBlock) : Block :=
  with_base base bt_external_link (Rendered c).

Definition buildHotspotMediaBlock (c : ScoredContent) (base : BaseBlock) : Block :=
  with_base base bt_hotspot_media (Rendered c).

Definition buildCTABlock (_content : ScoredContent) (base : BaseBlock) : Block :=
  with_base base bt_cta
    (CTAContent
       {| label := "Contact"; action_type := "open_chat"; payload := [];
          action_style := Some "filled"%string |}
       None None).

Section Environment.
Variable uuidv4 : nat -> string.
Variable toISOString : nat -> string.

Definition buildTimelineBlock (c : ScoredContent) (base : BaseBlock) : M Block :=
  let! date := Helpers.now toISOString in
  ret (with_base base bt_timeline (TimelineContent date c)).

Definition buildScrollContainerBlock (c : ScoredContent) (base : BaseBlock) : M Block :=
  let! child_id := Helpers.generateBlockId uuidv4 in
  let childBlock :=
    buildMediaBlock c {| base_block_id := child_id;
                         base_visibility := base_visibility base;
                         base_style := base_style base |} in
  ret (with_base base bt_scroll_container (ScrollContainerContent [childBlock])).

(** The [switch] over the ten block types; its [default] branch is not
    reachable from a value of the closed type [BlockType]. *)
Definition buildBlock (c : ScoredContent) (blockType : BlockType)
    (sectionId : SectionId) : M Block :=
  let! id := Helpers.generateBlockId uuidv4 in
  let baseBlock :=
    {| base_block_id := id;
       base_visibility :=
         {| initial := if eqb sectionId s_hook then expanded else collapsed;
            priority := if gt (final_score c) 0.7 then high else medium |};
       base_style := {| padding := pad_medium |} |} in
  match blockType with
  | bt_media => ret (buildMediaBlock c baseBlock)
  | bt_expandable_text => ret (buildExpandableTextBlock c baseBlock)
  | bt_metric => ret (buildMetricBlock c baseBlock)
  | bt_comparison => ret (buildComparisonBlock c baseBlock)
  | bt_gallery => ret (buildGalleryBlock c baseBlock)
  | bt_timeline => buildTimelineBlock c baseBlock
  | bt_external_link => ret (buildExternalLinkBlock c baseBlock)
  | bt_scroll_container => buildScrollContainerBlock c baseBlock
  | bt_hotspot_media => ret (buildHotspotMediaBlock c baseBlock)
  | bt_cta => ret (buildCTABlock c baseBlock)
  end.

End Environment.

End BlockBuilder.

(* ================================================================= *)
(** ** Composition engine ([services/composition.ts]) *)

Module Composition.

Import Js.

Record SectionConfig : Type := mkSectionConfig {
  id : SectionId;
  cfg_order : Q;
  required : bool;
  minBlocks : nat;
  maxBlocks : nat;
  preferredTypes : list BlockType;
  contentFilter : ScoredContent -> Category -> bool
}.

(** [textType === v] for [content.extracted_data?.text_type]. *)
Definition textType_is (c : ScoredContent) (v : TextType) : bool :=
  eqb (chain (extracted_data c) text_type) (Some v).

Definition hook_filter (c : ScoredContent) (_category : Category) : bool :=
  if eqb (type c) ct_video then true
  else if eqb (source c) src_youtube then true
  else if (eqb (type c) ct_text
           && (textType_is c tt_intro || textType_is c tt_bio))%bool then true
  else gt (final_score c) 0.6.

Definition credibility_filter (c : ScoredContent) (_category : Category) : bool :=
  if eqb (type c) ct_pdf then true
  else if eqb (type c) ct_external_link then
    let socialSources :=
      [src_github; src_linkedin; src_instagram; src_twitter; src_tiktok] in
    includes socialSources (source c)
  else if eqb (source c) src_github then true
  else gt (credibility (scores c)) 0.5.

Definition work_filter (c : ScoredContent) (_category : Category) : bool :=
  if eqb (type c) ct_image then true
  else if eqb (type c) ct_video then true
  else if eqb (type c) ct_code then true
  else if eqb (type c) ct_external_link then
    let socialSources :=
      [src_github; src_linkedin; src_instagram; src_twitter; src_tiktok] in
    negb (includes socialSources (source c))
  else if eqb (type c) ct_text then false
  else if eqb (type c) ct_pdf then false
  else gt (quality (scores c)) 0.4.

Definition process_filter (c : ScoredContent) (_category : Category) : bool :=
  if (eqb (type c) ct_text
      && (textType_is c tt_about || textType_is c tt_description
          || textType_is c tt_general))%bool then true
  else if (eqb (type c) ct_pdf
           && negb (is_flag (chain (extracted_data c) is_resume)))%bool then true
  else false.

Definition action_filter (_c : ScoredContent) (_category : Category) : bool := false.

Definition SECTION_CONFIGS : list SectionConfig :=
  [ {| id := s_hook; cfg_order := 1; required := true;
       minBlocks := 1; maxBlocks := 2;
       preferredTypes := [bt_metric; bt_media; bt_expandable_text];
       contentFilter := hook_filter |};
    {| id := s_credibility; cfg_order := 2; required := true;
       minBlocks := 1; maxBlocks := 3;
       preferredTypes := [bt_expandable_text; bt_external_link; bt_metric];
       contentFilter := credibility_filter |};
    {| id := s_work; cfg_order := 3; required := true;
       minBlocks := 1; maxBlocks := 6;
       preferredTypes :=
         [bt_gallery; bt_scroll_container; bt_media; bt_comparison; bt_external_link];
       contentFilter := work_filter |};
    {| id := s_process; cfg_order := 4; required := false;
       minBlocks := 0; maxBlocks := 2;
       preferredTypes := [bt_timeline; bt_expandable_text; bt_hotspot_media];
       contentFilter := process_filter |};
    {| id := s_action; cfg_order := 5; required := true;
       minBlocks := 1; maxBlocks := 1;
       preferredTypes := [bt_cta];
       contentFilter := action_filter |} ].

Definition CATEGORY_HOOK_TYPES (category : Category) : BlockType :=
  match category with
  | Finance => bt_metric
  | Entertainment => bt_media
  | Design => bt_comparison
  | Legal => bt_expandable_text
  | Tech => bt_media
  | Marketing => bt_metric
  | Influencers => bt_media
  | Business => bt_metric
  end.

(** [SECTION_CONFIGS.find(c => c.id === sectionId)] *)
Definition find_config (sectionId : SectionId) : option SectionConfig :=
  List.find (fun c => eqb (id c) sectionId) SECTION_CONFIGS.

(** *** Section assignment *)

#[global] Instance SectionId_countable : Countable SectionId.
Proof.
  refine (inj_countable'
            (fun s => match s with
                      | s_hook => 0 | s_credibility => 1 | s_work => 2
                      | s_process => 3 | s_action => 4
                      end)%nat
            (fun n => match n with
                      | 0 => s_hook | 1 => s_credibility | 2 => s_work
                      | 3 => s_process | _ => s_action
                      end)%nat _).
  intros []; reflexivity.
Defined.

(** The two mutable locals of [assignContentToSections]. *)
Record AssignState : Type := mkAssignState {
  assignments : gmap SectionId (list ScoredContent);
  usedContent : gset string
}.

(** [!usedContent.has(c.content_id)] *)
Definition unused (used : gset string) (c : ScoredContent) : bool :=
  negb (bool_decide (content_id c ∈ used)).

(** One turn of [for (const content of ...)]: push onto the section's
    array and mark the item used.  [assignments.get(id)!.push] throws
    when the section has no entry. *)
Definition push_content (sid : SectionId) (st : AssignState) (c : ScoredContent)
    : option AssignState :=
  match assignments st !! sid with
  | Some assigned =>
      Some {| assignments := <[sid := assigned ++ [c]]> (assignments st);
              usedContent := usedContent st ∪ {[content_id c]} |}
  | None => None
  end.

(** Body of the first loop over [SECTION_CONFIGS]. *)
Definition first_pass (scoredContent : list ScoredContent) (category : Category)
    (st : AssignState) (config : SectionConfig) : option AssignState :=
  if eqb (id config) s_action then Some st
  else
    let candidates :=
      take (maxBlocks config)
           (List.filter (fun c => contentFilter config c category)
              (List.filter (unused (usedContent st)) scoredContent)) in
    foldO (push_content (id config)) st candidates.

(** Body of the second loop over [SECTION_CONFIGS]. *)
Definition second_pass (scoredContent : list ScoredContent)
    (st : AssignState) (config : SectionConfig) : option AssignState :=
  if negb (required config) then Some st
  else if eqb (id config) s_action then Some st
  else
    match assignments st !! id config with
    | Some assigned =>
        if Nat.ltb (length assigned) (minBlocks config) then
          let remaining :=
            take (minBlocks config - length assigned)
                 (List.filter (unused (usedContent st)) scoredContent) in
          foldO (push_content (id config)) st remaining
        else Some st
    | None => None
    end.

Definition assignContentToSections (scoredContent : list ScoredContent)
    (category : Category) : option (gmap SectionId (list ScoredContent)) :=
  let st :=
    {| assignments := foldl (fun m config => <[id config := []]> m) ∅ SECTION_CONFIGS;
       usedContent := ∅ |} in
  match foldO (first_pass scoredContent category) st SECTION_CONFIGS with
  | Some st =>
      match foldO (second_pass scoredContent) st SECTION_CONFIGS with
      | Some st => Some (assignments st)
      | None => None
      end
  | None => None
  end.

(** *** Block type selection *)

(** [typeMapping[content.type]] *)
Definition typeMapping (t : ContentType) : option BlockType :=
  match t with
  | ct_video => Some bt_media
  | ct_image => Some bt_media
  | ct_pdf => Some bt_expandable_text
  | ct_text => Some bt_expandable_text
  | ct_code => Some bt_expandable_text
  | ct_external_link => Some bt_external_link
  end.

(** [None] is either the [TypeError] of reading [preferredTypes] off a
    missing configuration or the [undefined] of [preferredTypes[0]] on an
    empty list. *)
Definition selectBlockType (c : ScoredContent) (sectionId : SectionId)
    (category : Category) : option BlockType :=
  let sectionConfig := find_config sectionId in
  if eqb (type c) ct_pdf then Some bt_expandable_text
  else if eqb (type c) ct_text then Some bt_expandable_text
  else if eqb (type c) ct_external_link then Some bt_external_link
  else if (eqb (source c) src_github
           && is_flag (chain (extracted_data c) is_profile))%bool
  then Some bt_external_link
  else if eqb sectionId s_hook then Some (CATEGORY_HOOK_TYPES category)
  else
    let mappedType := typeMapping (type c) in
    match sectionConfig with
    | None => None
    | Some cfg =>
        match mappedType with
        | Some mapped =>
            if includes (preferredTypes cfg) mapped then Some mapped
            else head (preferredTypes cfg)
        | None => head (preferredTypes cfg)
        end
    end.

(** *** Sections, navigation and the portfolio *)

Open Scope M_scope.

(** The wire spelling of a section id. *)
Definition SectionId_str (s : SectionId) : string :=
  match s with
  | s_hook => "hook"
  | s_credibility => "credibility"
  | s_work => "work"
  | s_process => "process"
  | s_action => "action"
  end.

Section Environment.
Variable uuidv4 : nat -> string.
Variable toISOString : nat -> string.

(** [config] is dereferenced only after the blocks are built.  A
    [selectBlockType] without a result stops the loop. *)
Definition buildSection (sectionId : SectionId) (contents : list ScoredContent)
    (category : Category) : M PSection :=
  let config := find_config sectionId in
  let! blocks :=
    mapM (fun c =>
            let! blockType := assert_defined (selectBlockType c sectionId category) in
            BlockBuilder.buildBlock uuidv4 toISOString c blockType sectionId)
         contents in
  let! config := assert_defined config in
  ret {| section_id := sectionId;
         order := cfg_order config;
         layout := if eqb sectionId s_hook then full else contained;
         sec_visibility :=
           {| sec_initial := sec_visible;
              min_content_required := minBlocks config |};
         blocks := blocks |}.

Definition buildCTASection (userId : string) (_title : string) : M PSection :=
  let! id := Helpers.generateBlockId uuidv4 in
  let ctaBlock : Block :=
    {| block_id := id;
       block_type := bt_cta;
       content :=
         CTAContent
           {| label := "Get in Touch"; action_type := "open_chat";
              payload := [("user_id", userId)];
              action_style := Some "filled" |}
           (Some {| label := "Save Card"; action_type := "save_card";
                    payload := []; action_style := None |})
           None;
       visibility := {| initial := expanded; priority := high |};
       style := {| padding := pad_large |} |} in
  ret {| section_id := s_action;
         order := 5;
         layout := contained;
         sec_visibility := {| sec_initial := sec_visible; min_content_required := 1 |};
         blocks := [ctaBlock] |}.

Definition sectionLabels (s : SectionId) : string * string :=
  match s with
  | s_hook => ("Overview", "star.fill")
  | s_credibility => ("About", "person.fill")
  | s_work => ("Work", "briefcase.fill")
  | s_process => ("Process", "gearshape.fill")
  | s_action => ("Contact", "message.fill")
  end.

Definition buildNavigation (portfolioId : string) (sections : list PSection)
    : Navigation :=
  let step (acc : gmap string string * list QuickNavItem) (section : PSection) :=
    let sid := section_id section in
    let labelInfo := sectionLabels sid in
    (<[SectionId_str sid := ("section_" ++ SectionId_str sid)%string]> (fst acc),
     snd acc ++ [ {| nav_label := fst labelInfo;
                     target_section := sid;
                     icon := snd labelInfo |} ]) in
  let '(anchors, quickNavItems) := foldl step (∅, []) sections in
  {| anchors := anchors;
     deep_links :=
       {| dl_enabled := true;
          base_url := "reshuffle://portfolio/" ++ portfolioId;
          section_format :=
            "reshuffle://portfolio/" ++ portfolioId ++ "/{section_id}";
          block_format :=
            "reshuffle://portfolio/" ++ portfolioId ++ "/block/{block_id}" |};
     state_preservation :=
       {| sp_enabled := true;
          restore_scroll_position := true;
          restore_expanded_state := true |};
     quick_nav := {| qn_enabled := true; items := quickNavItems |} |}%string.

Definition buildAnalytics : Analytics :=
  {| an_enabled := true;
     track_events :=
       ["portfolio_view"; "section_view"; "block_interaction"; "cta_click";
        "external_link_click"; "share"]%string |}.

(** Body of the loop of [composePortfolio] that builds the sections. *)
Definition compose_step (assigned : gmap SectionId (list ScoredContent))
    (userId title : string) (category : Category)
    (sections : list PSection) (config : SectionConfig) : M (list PSection) :=
  if eqb (id config) s_action then
    let! cta := buildCTASection userId title in
    ret (sections ++ [cta])
  else
    let! sectionContent := assert_defined (assigned !! id config) in
    if (negb (required config) && Nat.eqb (length sectionContent) 0)%bool then
      ret sections
    else if (Nat.ltb 0 (length sectionContent) || required config)%bool then
      let! section := buildSection (id config) sectionContent category in
      ret (sections ++ [section])
    else ret sections.

Definition composePortfolio (scoredContent : list ScoredContent)
    (options : ComposeOptions) : M Portfolio :=
  let userId := userId options in
  let category := opt_category options in
  let title := opt_title options in
  let subtitle := opt_subtitle options in
  let! portfolioId := Helpers.generatePortfolioId uuidv4 in
  let! assigned := assert_defined (assignContentToSections scoredContent category) in
  let! sections := foldM (compose_step assigned userId title category) [] SECTION_CONFIGS in
  let sections := sort (fun a b => order a - order b)%Q sections in
  let! created := Helpers.now toISOString in
  let! updated := Helpers.now toISOString in
  ret {| portfolio_id := portfolioId;
         user_id := userId;
         category := category;
         version := "v1";
         meta := {| meta_title := title;
                    meta_subtitle := subtitle;
                    meta_created_at := created;
                    meta_updated_at := updated;
                    language := "en";
                    theme := "auto" |};
         sections := sections;
         navigation := buildNavigation portfolioId sections;
         analytics := buildAnalytics |}.

End Environment.

End Composition.

(* ================================================================= *)
(** ** Predicates used in the statements *)

Module Spec.

Import Composition.

(** [c.content_id] of a scored item. *)
Definition scored_id (c : ScoredContent) : string := content_id c.

(** The items assigned to a section, and their ids. *)
Definition assigned_to (m : gmap SectionId (list ScoredContent)) (s : SectionId)
    : list ScoredContent :=
  default [] (m !! s).

Definition section_ids (m : gmap SectionId (list ScoredContent)) (s : SectionId)
    : list string :=
  scored_id <$> assigned_to m s.

(** Every section id has an entry in the map. *)
Definition keys_present (m : gmap SectionId (list ScoredContent)) : Prop :=
  forall s, is_Some (m !! s).

Definition has_keys (st : AssignState) : Prop := keys_present (assignments st).

(** No content id is listed twice in a section, and none in two sections. *)
Definition assigned_once (m : gmap SectionId (list ScoredContent)) : Prop :=
  (forall s, NoDup (section_ids m s)) /\
  (forall s1 s2 i, s1 <> s2 -> i ∈ section_ids m s1 -> i ∉ section_ids m s2).

(** What the two loops of [assignContentToSections] maintain. *)
Definition assign_inv (input : list ScoredContent) (st : AssignState) : Prop :=
  assigned_once (assignments st) /\
  (forall s i, i ∈ section_ids (assignments st) s -> i ∈ usedContent st) /\
  (forall s c, c ∈ assigned_to (assignments st) s -> c ∈ input).

(** A section built from the items assigned to [sid]: one block per item,
    each of the type that [selectBlockType] picks for it. *)
Definition built_from (m : gmap SectionId (list ScoredContent))
    (category : Category) (sid : SectionId) (ord : Q) (sec : PSection) : Prop :=
  section_id sec = sid /\ order sec = ord /\
  Forall2 (fun c b => selectBlockType c sid category = Some (block_type b))
          (assigned_to m sid) (blocks sec).

(** The generated call-to-action section. *)
Definition is_cta_section (sec : PSection) : Prop :=
  section_id sec = s_action /\ order sec = 5%Q /\
  exists b : Block,
    blocks sec = [b] /\ block_type b = bt_cta /\
    visibility b = {| initial := expanded; priority := high |}.

(** Strictly increasing [order]. *)
Definition ascending (secs : list PSection) : Prop :=
  StronglySorted (fun a b => (order a < order b)%Q) secs.

End Spec.

(* ================================================================= *)
(** ** Sample inputs *)

Module Samples.

Open Scope string_scope.

Definition no_data : ExtractedData :=
  {| thumbnail_url := None; view_count := None; like_count := None;
     duration_seconds := None; stars := None; readme_preview := None;
     is_profile := None; width := None; height := None; page_count := None;
     extracted_text := None; is_resume := None; text_type := None |}.

(** A GitHub repository with 150 stars. *)
Definition github_150 : NormalizedContent :=
  {| content_id := "c_1a2b3c4d5e6f";
     type := ct_code;
     source := src_github;
     original_url := Some "https://github.com/octo/engine";
     file_path := None;
     title := "octo/engine";
     description := "A rendering engine";
     extracted_data :=
       Some {| thumbnail_url := None; view_count := None; like_count := None;
               duration_seconds := None; stars := Some 150%Q;
               readme_preview := None; is_profile := None; width := None;
               height := None; page_count := None; extracted_text := None;
               is_resume := None; text_type := None |};
     created_at := "2024-01-01T00:00:00.000Z" |}.

(** An uploaded PDF and an uploaded video. *)
Definition pdf_upload : NormalizedContent :=
  {| content_id := "c_pdf000000001";
     type := ct_pdf;
     source := src_upload;
     original_url := None;
     file_path := Some "/uploads/case-study.pdf";
     title := "Case study";
     description := "Audit of a budget forecast";
     extracted_data := Some no_data;
     created_at := "2024-01-01T00:00:00.000Z" |}.

Definition video_upload : NormalizedContent :=
  {| content_id := "c_vid000000001";
     type := ct_video;
     source := src_upload;
     original_url := None;
     file_path := Some "/uploads/reel.mp4";
     title := "Show reel";
     description := "";
     extracted_data := None;
     created_at := "2024-01-01T00:00:00.000Z" |}.

(** Every date parses to the epoch; every UUID and timestamp is the same. *)
Definition epoch_parse (_ : string) : option Z := Some 0%Z.
Definition fixed_uuid (_ : nat) : string := "3f2b8c1e-9a4d-4e7b-8c6f-0123456789ab".
Definition fixed_iso (_ : nat) : string := "2024-03-01T00:00:00.000Z".
Definition clock0 (_ : nat) : Z := 0%Z.
Definition world0 : World := {| uuids_drawn := 0; clock_reads := 0 |}.

Definition scored (c : NormalizedContent) : ScoredContent :=
  Scoring.scoreContent epoch_parse 0 c Tech.

(** A short "about" text typed in by the user. *)
Definition about_text : NormalizedContent :=
  {| content_id := "c_txt000000001";
     type := ct_text;
     source := src_input;
     original_url := None;
     file_path := None;
     title := "About";
     description := "How I work";
     extracted_data :=
       Some {| thumbnail_url := None; view_count := None; like_count := None;
               duration_seconds := None; stars := None; readme_preview := None;
               is_profile := None; width := None; height := None;
               page_count := None; extracted_text := Some "How I work";
               is_resume := None; text_type := Some tt_about |};
     created_at := "2024-01-01T00:00:00.000Z" |}.

(** Three items with distinct ids, scored and sorted for Tech. *)
Definition three_items : list ScoredContent :=
  Scoring.scoreContentBatch epoch_parse clock0
    [pdf_upload; github_150; video_upload] Tech.

Definition options : ComposeOptions :=
  {| userId := "u_42"; opt_category := Finance;
     opt_title := "Portfolio"; opt_subtitle := "Selected work" |}.

(** The ids listed in each of the five sections. *)
Definition ids_by_section (input : list ScoredContent) (category : Category)
    : option (list (list string)) :=
  (fun m => Spec.section_ids m <$> [s_hook; s_credibility; s_work; s_process; s_action])
    <$> Composition.assignContentToSections input category.

(** The section ids and block types of the composed portfolio. *)
Definition outline (input : list ScoredContent) (category : Category)
    : option (list (SectionId * list BlockType)) :=
  (fun r => (fun s => (section_id s, block_type <$> blocks s)) <$> sections r.1)
    <$> Composition.composePortfolio fixed_uuid fixed_iso input
          {| userId := "u_42"; opt_category := category;
             opt_title := "Portfolio"; opt_subtitle := "" |} world0.

End Samples.

(* ================================================================= *)
(** ** The two passes of the assignment, step by step *)

Module TwoPass.

Import Composition Spec.

(** The ids that a run of pushes adds to [usedContent]. *)
Definition ids_of (cs : list ScoredContent) : gset string :=
  list_to_set (scored_id <$> cs).

(** [candidates] of the first loop, for a section with the given filter
    and [maxBlocks]. *)
Definition candidates (scoredContent : list ScoredContent) (category : Category)
    (used : gset string) (filter : ScoredContent -> Category -> bool)
    (maxBlocks : nat) : list ScoredContent :=
  take maxBlocks
       (List.filter (fun c => filter c category)
          (List.filter (unused used) scoredContent)).

(** [remaining] of the second loop; nothing when the section already has
    [minBlocks] items. *)
Definition remaining (scoredContent : list ScoredContent) (used : gset string)
    (minBlocks : nat) (assigned : list ScoredContent) : list ScoredContent :=
  if Nat.ltb (length assigned) minBlocks then
    take (minBlocks - length assigned)
         (List.filter (unused used) scoredContent)
  else [].

(** The state after pushing [cs] onto section [sid], which held [l]. *)
Definition pushed (st : AssignState) (sid : SectionId)
    (l cs : list ScoredContent) : AssignState :=
  {| assignments := <[sid := l ++ cs]> (assignments st);
     usedContent := usedContent st ∪ ids_of cs |}.

(** What each section receives in each pass, in the order in which the
    loops run. *)
Record Run : Type := mkRun {
  hook1 : list ScoredContent;
  cred1 : list ScoredContent;
  work1 : list ScoredContent;
  proc1 : list ScoredContent;
  used1 : gset string;
  hook2 : list ScoredContent;
  cred2 : list ScoredContent;
  work2 : list ScoredContent
}.

Definition run (input : list ScoredContent) (category : Category) : Run :=
  let h1 := candidates input category ∅ hook_filter 2 in
  let u := ∅ ∪ ids_of h1 in
  let c1 := candidates input category u credibility_filter 3 in
  let u := u ∪ ids_of c1 in
  let k1 := candidates input category u work_filter 6 in
  let u := u ∪ ids_of k1 in
  let p1 := candidates input category u process_filter 2 in
  let u4 := u ∪ ids_of p1 in
  let h2 := remaining input u4 1 h1 in
  let u := u4 ∪ ids_of h2 in
  let c2 := remaining input u 1 c1 in
  let u := u ∪ ids_of c2 in
  let k2 := remaining input u 1 k1 in
  {| hook1 := h1; cred1 := c1; work1 := k1; proc1 := p1; used1 := u4;
     hook2 := h2; cred2 := c2; work2 := k2 |}.

(** The items of a section at the end of the run. *)
Definition assigned_in (r : Run) (s : SectionId) : list ScoredContent :=
  match s with
  | s_hook => hook1 r ++ hook2 r
  | s_credibility => cred1 r ++ cred2 r
  | s_work => work1 r ++ work2 r
  | s_process => proc1 r
  | s_action => []
  end.


(** [config.maxBlocks] and [config.contentFilter] of a section. *)
Definition capacity (s : SectionId) : nat :=
  match find_config s with Some cfg => maxBlocks cfg | None => 0 end.

Definition filter_of (s : SectionId) : ScoredContent -> Category -> bool :=
  match find_config s with
  | Some cfg => contentFilter cfg
  | None => fun _ _ => false
  end.

End TwoPass.

(* ================================================================= *)
(** ** Navigation and identifiers of a composed portfolio *)

Module Nav.

Import Composition.

(** The body of the loop of [buildNavigation] over the sections. *)
Definition nav_step (acc : gmap string string * list QuickNavItem)
    (section : PSection) : gmap string string * list QuickNavItem :=
  let sid := section_id section in
  let labelInfo := sectionLabels sid in
  (<[SectionId_str sid := ("section_" ++ SectionId_str sid)%string]> (fst acc),
   snd acc ++ [ {| nav_label := fst labelInfo;
                   target_section := sid;
                   icon := snd labelInfo |} ]).

(** The anchor keys of a list of sections. *)
Definition anchor_keys (secs : list PSection) : list string :=
  (fun s => SectionId_str (section_id s)) <$> secs.

End Nav.

Module Ids.

(** [uuidv4().replace(/-/g, '').substring(0, 12)] for a given UUID. *)
Definition short_id (uuid : string) : string :=
  String.substring 0 12 (Helpers.remove_dashes uuid).

(** The ids of the blocks nested in a block content, and of a block
    together with the blocks nested in it. *)
Fixpoint content_ids (c : BlockContent) : list string :=
  match c with
  | ScrollContainerContent children =>
      flat_map (fun b => block_id b :: content_ids (content b)) children
  | _ => []
  end.

Definition block_ids (b : Block) : list string :=
  block_id b :: content_ids (content b).

Definition section_block_ids (sec : PSection) : list string :=
  flat_map block_ids (blocks sec).

Definition portfolio_block_ids (p : Portfolio) : list string :=
  flat_map section_block_ids (sections p).

(** The shortened UUIDs drawn between two states of the world. *)
Definition drawn (uuidv4 : nat -> string) (w w' : World) : list string :=
  (fun k => short_id (uuidv4 k))
    <$> seq (uuids_drawn w) (uuids_drawn w' - uuids_drawn w).

(** The block ids made from the draws [a], ..., [a + n - 1]. *)
Definition fresh_ids (uuidv4 : nat -> string) (a n : nat) : list string :=
  (fun k => ("b_" ++ short_id (uuidv4 k))%string) <$> seq a n.

(** A computation between [w] and [w'] that draws some UUIDs and makes
    the block ids [ids] out of them, in the order of the draws. *)
Definition draws (uuidv4 : nat -> string) (w w' : World) (ids : list string)
    : Prop :=
  exists n, uuids_drawn w' = uuids_drawn w + n /\
            ids = fresh_ids uuidv4 (uuids_drawn w) n.

End Ids.

(* ================================================================= *)
(** ** A portfolio without its generated identifiers and timestamps *)

Module Erase.

(** Blank the ids of nested blocks and the date of a timeline entry. *)
Fixpoint erase_content (c : BlockContent) : BlockContent :=
  match c with
  | ScrollContainerContent children =>
      ScrollContainerContent
        (List.map (fun b => {| block_id := EmptyString;
                               block_type := block_type b;
                               content := erase_content (content b);
                               visibility := visibility b;
                               style := style b |}) children)
  | TimelineContent _ item => TimelineContent EmptyString item
  | CTAContent p s u => CTAContent p s u
  | Rendered item => Rendered item
  end.

Definition erase_block (b : Block) : Block :=
  {| block_id := EmptyString;
     block_type := block_type b;
     content := erase_content (content b);
     visibility := visibility b;
     style := style b |}.

Definition erase_section (sec : PSection) : PSection :=
  {| section_id := section_id sec;
     order := order sec;
     layout := layout sec;
     sec_visibility := sec_visibility sec;
     blocks := erase_block <$> blocks sec |}.

(** The deep-link templates embed the portfolio id. *)
Definition erase_navigation (nav : Navigation) : Navigation :=
  {| anchors := anchors nav;
     deep_links := {| dl_enabled := dl_enabled (deep_links nav);
                      base_url := EmptyString;
                      section_format := EmptyString;
                      block_format := EmptyString |};
     state_preservation := state_preservation nav;
     quick_nav := quick_nav nav |}.

Definition erase_portfolio (p : Portfolio) : Portfolio :=
  {| portfolio_id := EmptyString;
     user_id := user_id p;
     category := category p;
     version := version p;
     meta := {| meta_title := meta_title (meta p);
                meta_subtitle := meta_subtitle (meta p);
                meta_created_at := EmptyString;
                meta_updated_at := EmptyString;
                language := language (meta p);
                theme := theme (meta p) |};
     sections := erase_section <$> sections p;
     navigation := erase_navigation (navigation p);
     analytics := analytics p |}.

End Erase.

(* ================================================================= *)
(** ** Block types by section *)

Module BlockTypes.

(** The block types that the blocks of a section of a composed
    portfolio can have. *)
Definition section_block_types (s : SectionId) : list BlockType :=
  match s with
  | s_hook =>
      [bt_metric; bt_media; bt_comparison; bt_expandable_text; bt_external_link]
  | s_credibility => [bt_expandable_text; bt_external_link]
  | s_work => [bt_media; bt_gallery; bt_expandable_text; bt_external_link]
  | s_process => [bt_expandable_text]
  | s_action => [bt_cta]
  end.

End BlockTypes.

(* ================================================================= *)
(** ** Ingestion pipeline ([services/ingestion.ts]) *)

Module Ingestion.

Import Js.

Inductive InputType : Type := in_url | in_image | in_video | in_pdf | in_text.

Record FileInput : Type := mkFileInput {
  buffer : string;
  filename : string;
  mimetype : string
}.

Record UserMetadata : Type := mkUserMetadata {
  um_title : option string;
  um_description : option string;
  um_tags : option (list string)
}.

Record RawInput : Type := mkRawInput {
  in_type : InputType;
  url : option string;
  file : option FileInput;
  text : option string;
  user_metadata : option UserMetadata
}.

(** [IngestResult]; its [content_id] and [normalized] fields are
    [ir_content_id] and [ir_normalized]. *)
Record IngestResult : Type := mkIngestResult {
  success : bool;
  ir_content_id : string;
  ir_normalized : option NormalizedContent;
  error : option string
}.

(** What a [throw] carries: an [Error] with its message, or another value. *)
Inductive Thrown : Type :=
  | Error (message : string)
  | NotAnError.

(** How a call of a content handler ends. *)
Inductive Outcome : Type :=
  | Returned (n : NormalizedContent)
  | Threw (t : Thrown).

(** The content handlers and the platform detection, as they behave
    during one call of [ingestContent]: they fetch pages, parse files,
    draw ids and read the clock. *)
Record Handlers : Type := mkHandlers {
  detectPlatform : string -> ContentSource;
  processYouTubeURL : string -> Outcome;
  processGitHubURL : string -> Outcome;
  processExternalLink : string -> ContentSource -> option UserMetadata -> Outcome;
  processImageUpload : FileInput -> option UserMetadata -> Outcome;
  processVideoUpload : FileInput -> option UserMetadata -> Outcome;
  processPdfUpload : FileInput -> option UserMetadata -> Outcome;
  processTextInput : string -> option UserMetadata -> Outcome
}.

(** The [switch] of [processUrl] on the detected platform. *)
Definition route_url (h : Handlers) (u : string) (meta : option UserMetadata)
    : Outcome :=
  let platform := detectPlatform h u in
  match platform with
  | src_youtube => processYouTubeURL h u
  | src_github => processGitHubURL h u
  | _ => processExternalLink h u platform meta
  end.

Definition processUrl (h : Handlers) (input : RawInput) : Outcome :=
  if negb (is_str (url input)) then Threw (Error "URL is required")
  else route_url h (str (url input)) (user_metadata input).

(** The [try] block of [ingestContent]; the [default] branch of its
    [switch] is not reachable from the closed type [InputType]. *)
Definition ingest_try (h : Handlers) (input : RawInput) : Outcome :=
  match in_type input with
  | in_url => processUrl h input
  | in_image =>
      match file input with
      | None => Threw (Error "Image file is required")
      | Some f => processImageUpload h f (user_metadata input)
      end
  | in_video =>
      match file input with
      | None => Threw (Error "Video file is required")
      | Some f => processVideoUpload h f (user_metadata input)
      end
  | in_pdf =>
      match file input with
      | None => Threw (Error "PDF file is required")
      | Some f => processPdfUpload h f (user_metadata input)
      end
  | in_text =>
      if negb (is_str (text input)) then Threw (Error "Text content is required")
      else processTextInput h (str (text input)) (user_metadata input)
  end.

Definition ingestContent (h : Handlers) (input : RawInput) : IngestResult :=
  match ingest_try h input with
  | Returned n =>
      {| success := true; ir_content_id := content_id n;
         ir_normalized := Some n; error := None |}
  | Threw t =>
      {| success := false; ir_content_id := "";
         ir_normalized := None;
         error := Some match t with
                       | Error message => message
                       | NotAnError => "Unknown error"
                       end |}
  end.

Record BatchIngestResult : Type := mkBatchIngestResult {
  total : nat;
  successful : nat;
  failed : nat;
  results : list IngestResult;
  normalized_content : list NormalizedContent;
  scored_content : list ScoredContent
}.

(** The loop of [ingestBatch]; [handlers i] is the behaviour of the
    handlers during the call for the input at index [i]. *)
Fixpoint ingest_loop (handlers : nat -> Handlers) (i : nat)
    (inputs : list RawInput)
    (results : list IngestResult) (normalizedContent : list NormalizedContent)
    : list IngestResult * list NormalizedContent :=
  match inputs with
  | [] => (results, normalizedContent)
  | input :: rest =>
      let result := ingestContent (handlers i) input in
      let results := results ++ [result] in
      let normalizedContent :=
        match success result, ir_normalized result with
        | true, Some n => normalizedContent ++ [n]
        | _, _ => normalizedContent
        end in
      ingest_loop handlers (S i) rest results normalizedContent
  end.

Definition ingestBatch (handlers : nat -> Handlers)
    (Date_parse : string -> option Z) (clock : nat -> Z)
    (inputs : list RawInput) (category : Category) : BatchIngestResult :=
  let '(results, normalizedContent) := ingest_loop handlers 0 inputs [] [] in
  let scoredContent :=
    Scoring.scoreContentBatch Date_parse clock normalizedContent category in
  {| total := length inputs;
     successful := length normalizedContent;
     failed := length inputs - length normalizedContent;
     results := results;
     normalized_content := normalizedContent;
     scored_content := scoredContent |}.

(** *** Validation *)

Definition InputType_str (t : InputType) : string :=
  match t with
  | in_url => "url" | in_image => "image" | in_video => "video"
  | in_pdf => "pdf" | in_text => "text"
  end.

Record Validation : Type := mkValidation {
  valid : bool;
  errors : list string
}.

Section Url.
(** Whether [new URL(s)] returns rather than throws. *)
Variable URL_parses : string -> bool.

(** [!input.type] is false for every value of [InputType]. *)
Definition validateInput (input : RawInput) : Validation :=
  let errors := [] in
  let errors :=
    if negb (truthy_str (InputType_str (in_type input)))
    then errors ++ ["Input type is required"] else errors in
  let errors :=
    match in_type input with
    | in_url =>
        if negb (is_str (url input))
        then errors ++ ["URL is required for URL input type"]
        else if URL_parses (str (url input)) then errors
             else errors ++ ["Invalid URL format"]
    | in_image | in_video | in_pdf =>
        match file input with
        | None =>
            errors ++ [("File is required for " ++ InputType_str (in_type input)
                        ++ " input type")%string]
        | Some _ => errors
        end
    | in_text =>
        if negb (is_str (text input))
        then errors ++ ["Text content is required for text input type"]
        else errors
    end in
  {| valid := Nat.eqb (length errors) 0; errors := errors |}.

Record BatchValidation : Type := mkBatchValidation {
  all_valid : bool;
  validInputs : list RawInput;
  invalidInputs : list (RawInput * list string)
}.

Definition validateBatch (inputs : list RawInput) : BatchValidation :=
  let step (acc : list RawInput * list (RawInput * list string)) (input : RawInput) :=
    let validation := validateInput input in
    if valid validation then (fst acc ++ [input], snd acc)
    else (fst acc, snd acc ++ [(input, errors validation)]) in
  let '(validInputs, invalidInputs) := foldl step ([], []) inputs in
  {| all_valid := Nat.eqb (length invalidInputs) 0;
     validInputs := validInputs;
     invalidInputs := invalidInputs |}.
End Url.

(** The handler call that [ingestContent] makes for an input whose
    required field is present. *)
Definition handler_call (h : Handlers) (input : RawInput) : option Outcome :=
  match in_type input with
  | in_url =>
      if is_str (url input)
      then Some (route_url h (str (url input)) (user_metadata input)) else None
  | in_image =>
      (fun f => processImageUpload h f (user_metadata input)) <$> file input
  | in_video =>
      (fun f => processVideoUpload h f (user_metadata input)) <$> file input
  | in_pdf =>
      (fun f => processPdfUpload h f (user_metadata input)) <$> file input
  | in_text =>
      if is_str (text input)
      then Some (processTextInput h (str (text input)) (user_metadata input))
      else None
  end.

End Ingestion.

(* ================================================================= *)
(** ** Text ([utils/helpers.ts], [services/handlers/text.ts]) *)

Module Text.

Import Js.

(** [truncate]; [substring(0, n)] with a negative [n] is the empty string. *)
Definition truncate (str : string) (maxLength : Z) : string :=
  if (Z.of_nat (String.length str) <=? maxLength)%Z then str
  else (String.substring 0 (Z.to_nat (maxLength - 3)) str ++ "...")%string.





End Text.

(* ================================================================= *)
(** ** Platforms ([utils/platform-detection.ts]) *)

Module Platform.

Definition isExtractable (platform : ContentSource) : bool :=
  eqb platform src_youtube || eqb platform src_github.

Definition getContentType (platform : ContentSource) : ContentType :=
  match platform with
  | src_youtube => ct_video
  | src_github => ct_code
  | _ => ct_external_link
  end.

End Platform.

(* ================================================================= *)
(** ** The route [POST /portfolios/generate] ([api/portfolios.ts]) *)

Module Api.

Import Js Ingestion.
Open Scope M_scope.

(** The body of the request after it passed [GeneratePortfolioSchema]. *)
Record UrlInput : Type := mkUrlInput {
  ui_url : string;
  ui_title : option string;
  ui_description : option string
}.

Record TextInput : Type := mkTextInput {
  ti_text : string;
  ti_title : option string;
  ti_description : option string
}.

Record GenerateBody : Type := mkGenerateBody {
  gb_user_id : string;
  gb_category : Category;
  gb_title : string;
  gb_subtitle : option string;
  gb_urls : option (list UrlInput);
  gb_texts : option (list TextInput)
}.

(** An uploaded file as multer hands it over. *)
Record MulterFile : Type := mkMulterFile {
  mf_buffer : string;
  originalname : string;
  mf_mimetype : string
}.

Definition getFileInputType (mimetype : string) : option InputType :=
  if String.prefix "image/" mimetype then Some in_image
  else if String.prefix "video/" mimetype then Some in_video
  else if String.eqb mimetype "application/pdf" then Some in_pdf
  else None.

Definition url_input (urlInput : UrlInput) : RawInput :=
  {| in_type := in_url;
     url := Some (ui_url urlInput);
     file := None;
     text := None;
     user_metadata :=
       Some {| um_title := ui_title urlInput;
               um_description := ui_description urlInput;
               um_tags := None |} |}.

Definition text_input (textInput : TextInput) : RawInput :=
  {| in_type := in_text;
     url := None;
     file := None;
     text := Some (ti_text textInput);
     user_metadata :=
       Some {| um_title := ti_title textInput;
               um_description := ti_description textInput;
               um_tags := None |} |}.

Definition file_input (inputType : InputType) (f : MulterFile) : RawInput :=
  {| in_type := inputType;
     url := None;
     file := Some {| buffer := mf_buffer f;
                     filename := originalname f;
                     mimetype := mf_mimetype f |};
     text := None;
     user_metadata := None |}.

(** The three loops that fill [rawInputs]; a request without files has
    the empty list of files. *)
Definition build_raw_inputs (body : GenerateBody) (files : list MulterFile)
    : list RawInput :=
  let rawInputs := [] in
  let rawInputs :=
    match gb_urls body with
    | Some urls => foldl (fun acc urlInput => acc ++ [url_input urlInput]) rawInputs urls
    | None => rawInputs
    end in
  let rawInputs :=
    match gb_texts body with
    | Some texts => foldl (fun acc textInput => acc ++ [text_input textInput]) rawInputs texts
    | None => rawInputs
    end in
  foldl (fun acc f =>
           match getFileInputType (mf_mimetype f) with
           | Some inputType => acc ++ [file_input inputType f]
           | None => acc
           end) rawInputs files.

Record ProcessingSummary : Type := mkProcessingSummary {
  total_inputs : nat;
  processed : nat;
  ps_failed : nat;
  sections_generated : nat;
  blocks_generated : nat
}.

Record GenerateResponse : Type := mkGenerateResponse {
  gr_portfolio : Portfolio;
  processing_summary : ProcessingSummary
}.

(** The route from the validation of the inputs to the response.  [None]
    stands for an exception, which the route answers with status 500. *)
Definition generate (URL_parses : string -> bool) (handlers : nat -> Handlers)
    (Date_parse : string -> option Z) (clock : nat -> Z)
    (uuidv4 toISOString : nat -> string)
    (body : GenerateBody) (files : list MulterFile) : M GenerateResponse :=
  let rawInputs := build_raw_inputs body files in
  let inputValidation := validateBatch URL_parses rawInputs in
  let ingestResult :=
    ingestBatch handlers Date_parse clock (validInputs inputValidation)
                (gb_category body) in
  let! portfolio :=
    Composition.composePortfolio uuidv4 toISOString (scored_content ingestResult)
      {| userId := gb_user_id body;
         opt_category := gb_category body;
         opt_title := gb_title body;
         opt_subtitle := or_empty (gb_subtitle body) |} in
  ret {| gr_portfolio := portfolio;
         processing_summary :=
           {| total_inputs := length rawInputs;
              processed := successful ingestResult;
              ps_failed := failed ingestResult;
              sections_generated := length (sections portfolio);
              blocks_generated :=
                foldl (fun sum s => sum + length (blocks s))%nat 0%nat (sections portfolio) |} |}.

End Api.

(* ================================================================= *)
(** ** More sample data *)

Module Fixtures.

Import Ingestion.

(** A generator whose UUIDs differ in their first two characters. *)
Definition hex_digit (n : nat) : string := String.substring (n mod 16) 1 "0123456789abcdef".

Definition numbered_uuid (n : nat) : string :=
  (hex_digit (n / 16) ++ hex_digit n ++ "2b8c1e-9a4d-4e7b-8c6f-0123456789ab")%string.

(** Handlers of a host without network and without upload directory:
    only typed-in text is processed. *)
Definition offline : Handlers :=
  {| detectPlatform := fun _ => src_website;
     processYouTubeURL := fun _ => Threw (Error "fetch failed");
     processGitHubURL := fun _ => Threw (Error "fetch failed");
     processExternalLink := fun _ _ _ => Threw (Error "fetch failed");
     processImageUpload := fun _ _ => Threw NotAnError;
     processVideoUpload := fun _ _ => Threw NotAnError;
     processPdfUpload := fun _ _ => Threw NotAnError;
     processTextInput := fun _ _ => Returned Samples.about_text |}.

Definition typed_text : RawInput :=
  {| in_type := in_text; url := None; file := None;
     text := Some "How I work"; user_metadata := None |}.

Definition request : Api.GenerateBody :=
  {| Api.gb_user_id := "u_42";
     Api.gb_category := Tech;
     Api.gb_title := "Portfolio";
     Api.gb_subtitle := None;
     Api.gb_urls := Some [ {| Api.ui_url := "https://example.org/";
                              Api.ui_title := None;
                              Api.ui_description := None |} ];
     Api.gb_texts := Some [ {| Api.ti_text := "How I work";
                               Api.ti_title := Some "About";
                               Api.ti_description := None |} ] |}.

Definition upload : Api.MulterFile :=
  {| Api.mf_buffer := "%PDF-1.7";
     Api.originalname := "case-study.pdf";
     Api.mf_mimetype := "application/pdf" |}.

End Fixtures.

(* ================================================================= *)
(** * Properties of the scoring engine *)

Module JsFacts.

Import Js.
Open Scope Q_scope.

Lemma gt_true x y : gt x y = true <-> y < x.
Proof.
  unfold gt. rewrite negb_true_iff. split.
  - intros H. apply Qnot_le_lt. intros Hle.
    apply Qle_bool_iff in Hle. congruence.
  - intros H. destruct (Qle_bool x y) eqn:E; [|reflexivity].
    apply Qle_bool_iff in E. lra.
Qed.

Lemma gt_false x y : gt x y = false <-> x <= y.
Proof. unfold gt. rewrite negb_false_iff. apply Qle_bool_iff. Qed.

Lemma lt_true x y : lt x y = true <-> x < y.
Proof. unfold lt. apply (gt_true y x). Qed.

Lemma lt_false x y : lt x y = false <-> y <= x.
Proof. unfold lt. apply (gt_false y x). Qed.

#[export] Instance gt_proper : Proper (Qeq ==> Qeq ==> eq) gt.
Proof. intros x x' Hx y y' Hy. unfold gt. now rewrite Hx, Hy. Qed.

#[export] Instance lt_proper : Proper (Qeq ==> Qeq ==> eq) lt.
Proof. intros x x' Hx y y' Hy. unfold lt. now rewrite Hx, Hy. Qed.

#[export] Instance truthy_num_proper : Proper (Qeq ==> eq) truthy_num.
Proof. intros x x' Hx. unfold truthy_num. now rewrite Hx. Qed.

End JsFacts.

Module ScoringFacts.

Import Js Scoring JsFacts.
Open Scope Q_scope.

(** *** Credibility of a GitHub item with 150 stars *)

Lemma scoreCredibility_github_150 (c : NormalizedContent) (q : Q) :
  source c = src_github ->
  chain (extracted_data c) stars = Some q ->
  q == 150 ->
  scoreCredibility c ==
    match type c with
    | ct_pdf => 0.85
    | ct_external_link => 0.6
    | _ => 0.7
    end.
Proof.
  intros Hsrc Hstars Hq. unfold scoreCredibility.
  rewrite Hsrc, Hstars. cbn [is_num num].
  assert (Ht : truthy_num q = true) by now rewrite Hq.
  assert (H10 : gt q 10 = true) by now rewrite Hq.
  assert (H100 : gt q 100 = true) by now rewrite Hq.
  assert (H1000 : gt q 1000 = false) by now rewrite Hq.
  rewrite Ht, H10, H100, H1000.
  change (eqb src_github src_youtube) with false.
  change (eqb src_github src_github) with true.
  change (includes [src_youtube; src_github] src_github) with true.
  cbv iota. destruct (type c); vm_compute; reflexivity.
Qed.

(** C1 (as amended): a content item with source github and 150 stars,
    scored under Tech, has credibility 0.3 + 0.2 + 0.1 + 0.1 = 0.7 (the
    +0.15 tier needs more than 1000 stars); a pdf item gets 0.15 more and
    an external link 0.1 less. *)
Theorem credibility_github_150_stars
    (Date_parse : string -> option Z) (now : Z) (c : NormalizedContent) (q : Q) :
  source c = src_github ->
  chain (extracted_data c) stars = Some q ->
  q == 150 ->
  credibility (scores (scoreContent Date_parse now c Tech)) ==
    match type c with
    | ct_pdf => 0.85
    | ct_external_link => 0.6
    | _ => 0.7
    end.
Proof.
  intros Hsrc Hstars Hq. cbn [scoreContent scores credibility].
  now apply (scoreCredibility_github_150 c q).
Qed.

Lemma credibility_github_150_stars_witness :
  credibility (scores (scoreContent Samples.epoch_parse 0 Samples.github_150 Tech))
  == 0.7.
Proof.
  apply (credibility_github_150_stars Samples.epoch_parse 0 Samples.github_150 150);
    reflexivity.
Defined.

(** C1 as stated fails: the credibility of the sample GitHub item with
    150 stars, scored under Tech, is not 1.0. *)
Lemma credibility_github_150_not_one :
  source Samples.github_150 = src_github /\
  chain (extracted_data Samples.github_150) stars = Some 150 /\
  ~ credibility (scores (scoreContent Samples.epoch_parse 0 Samples.github_150 Tech))
    == 1.0.
Proof.
  split; [reflexivity|]. split; [reflexivity|].
  intros H. vm_compute in H. discriminate H.
Qed.

(** *** Freshness *)

Lemma ageInDays_whole (Date_parse : string -> option Z) (c : NormalizedContent)
    (t d : Z) :
  Date_parse (created_at c) = Some t ->
  exists age, ageInDays Date_parse (t + d * ms_per_day) c = Some age /\ age == inject_Z d.
Proof.
  intros Ht. unfold ageInDays. rewrite Ht. eexists. split; [reflexivity|].
  replace (t + d * ms_per_day - t)%Z with (d * ms_per_day)%Z by lia.
  rewrite inject_Z_mult. field. now vm_compute.
Qed.

(** The step function on a whole number of days. *)
Lemma scoreFreshness_days (Date_parse : string -> option Z)
    (c : NormalizedContent) (t d : Z) :
  Date_parse (created_at c) = Some t ->
  scoreFreshness Date_parse (t + d * ms_per_day) c =
    if (d <? 30)%Z then 1.0
    else if (d <? 90)%Z then 0.8
    else if (d <? 365)%Z then 0.6
    else if (d <? 730)%Z then 0.4
    else 0.2.
Proof.
  intros Ht. destruct (ageInDays_whole Date_parse c t d Ht) as (age & Hage & Heq).
  unfold scoreFreshness. rewrite Hage.
  assert (Hlt : forall k : Z, lt age (k # 1) = (d <? k)%Z).
  { intros k. change (k # 1) with (inject_Z k). rewrite Heq. destruct (Z.ltb_spec d k) as [H|H].
    - apply lt_true. now rewrite <- Zlt_Qlt.
    - apply lt_false. now rewrite <- Zle_Qle. }
  rewrite (Hlt 30%Z), (Hlt 90%Z), (Hlt 365%Z), (Hlt 730%Z). reflexivity.
Qed.

(** C3: the freshness sub-score at the boundary ages: 29 days give 1.0,
    30 and 89 days 0.8, 90 and 364 days 0.6, 365 and 729 days 0.4, and
    730 days 0.2. *)
Theorem freshness_boundaries
    (Date_parse : string -> option Z) (c : NormalizedContent) (t : Z) :
  Date_parse (created_at c) = Some t ->
  let at_age (d : Z) := scoreFreshness Date_parse (t + d * ms_per_day) c in
  at_age 29%Z == 1.0 /\ at_age 30%Z == 0.8 /\ at_age 89%Z == 0.8 /\
  at_age 90%Z == 0.6 /\ at_age 364%Z == 0.6 /\ at_age 365%Z == 0.4 /\
  at_age 729%Z == 0.4 /\ at_age 730%Z == 0.2.
Proof.
  intros Ht at_age. subst at_age. cbv beta.
  rewrite !(scoreFreshness_days Date_parse c t _ Ht).
  cbn. repeat split; reflexivity.
Qed.

Lemma freshness_boundaries_witness :
  let at_age (d : Z) :=
    scoreFreshness Samples.epoch_parse (0 + d * ms_per_day) Samples.github_150 in
  at_age 29%Z == 1.0 /\ at_age 30%Z == 0.8 /\ at_age 89%Z == 0.8 /\
  at_age 90%Z == 0.6 /\ at_age 364%Z == 0.6 /\ at_age 365%Z == 0.4 /\
  at_age 729%Z == 0.4 /\ at_age 730%Z == 0.2.
Proof.
  apply (freshness_boundaries Samples.epoch_parse Samples.github_150 0).
  reflexivity.
Defined.

(** *** Range of the scores *)

Lemma bump_ge (cond : bool) (d lo score : Q) :
  0 <= d -> lo <= score -> lo <= bump cond d score.
Proof. intros Hd Hs. unfold bump. destruct cond; lra. Qed.

Lemma clamp_unit (score : Q) : unit_interval (Qmax 0 (Qmin score 1)).
Proof.
  split.
  - apply Q.le_max_l.
  - apply Q.max_lub; [lra | apply Q.le_min_r].
Qed.

Lemma cap_unit (score : Q) : 0 <= score -> unit_interval (Qmin score 1).
Proof.
  intros H. split.
  - apply Q.min_glb; lra.
  - apply Q.le_min_r.
Qed.

Lemma scoreRelevance_unit c category : unit_interval (scoreRelevance c category).
Proof.
  unfold scoreRelevance. cbv zeta. apply cap_unit.
  set (n := matchCount _ _).
  assert (Hrel : 0 <= Qmin (inject_Z (Z.of_nat n) / 5) 1).
  { apply Q.min_glb; [|lra]. apply Qle_shift_div_l; [lra|].
    rewrite Qmult_0_l. change 0 with (inject_Z 0). rewrite <- Zle_Qle. lia. }
  repeat match goal with
         | |- context [if ?b then _ else _] => destruct b
         end; lra.
Qed.

Lemma scoreQuality_unit c : unit_interval (scoreQuality c).
Proof.
  unfold scoreQuality. cbv zeta. apply cap_unit.
  apply Qle_trans with (y := 0.5); [lra|].
  repeat first
    [ apply Qle_refl
    | apply bump_ge; [lra|]
    | match goal with
      | |- _ <= (if ?b then _ else _) => destruct b
      | |- 0.5 <= _ + 0.15 =>
          apply Qle_trans with (y := 0.5 + 0.15); [lra|];
          apply Qplus_le_l
      end ].
Qed.

Lemma scoreFreshness_unit Date_parse now c :
  unit_interval (scoreFreshness Date_parse now c).
Proof.
  unfold scoreFreshness, unit_interval.
  destruct (ageInDays Date_parse now c) as [age|]; [|lra].
  repeat match goal with
         | |- context [if ?b then _ else _] => destruct b
         end; lra.
Qed.

Lemma round_percent_unit (x : Q) :
  unit_interval x -> unit_interval (inject_Z (round (x * 100)) / 100).
Proof.
  intros [H0 H1]. unfold round.
  pose proof (Qfloor_le (x * 100 + 0.5)) as Hle.
  pose proof (Qlt_floor (x * 100 + 0.5)) as Hlt.
  set (k := Qfloor (x * 100 + 0.5)) in *.
  assert (Hk0 : (0 <= k)%Z).
  { apply Z.lt_succ_r. rewrite Zlt_Qlt. unfold Z.succ. change (inject_Z 0) with 0. lra. }
  assert (Hk1 : (k <= 100)%Z).
  { apply Z.lt_succ_r. rewrite Zlt_Qlt.
    change (inject_Z (Z.succ 100)) with 101. lra. }
  rewrite Zle_Qle in Hk0, Hk1.
  change (inject_Z 0) with 0 in Hk0. change (inject_Z 100) with 100 in Hk1.
  split.
  - apply Qle_shift_div_l; lra.
  - apply Qle_shift_div_r; lra.
Qed.

Lemma weighted_unit (category : Category) (s : ContentScores) :
  unit_interval (relevance s) -> unit_interval (quality s) ->
  unit_interval (credibility s) -> unit_interval (engagement s) ->
  unit_interval (freshness s) ->
  let w := CATEGORY_WEIGHTS category in
  unit_interval (relevance s * relevance w + quality s * quality w +
                 credibility s * credibility w + engagement s * engagement w +
                 freshness s * freshness w).
Proof.
  unfold unit_interval. intros Hr Hq Hc He Hf.
  destruct category; cbn; split; lra.
Qed.

(** C4: for every content item, category and clock reading, the five
    sub-scores and the final score of [scoreContent] lie in [0,1]. *)
Theorem scoreContent_range
    (Date_parse : string -> option Z) (now : Z) (c : NormalizedContent)
    (category : Category) :
  let s := scoreContent Date_parse now c category in
  unit_interval (relevance (scores s)) /\
  unit_interval (quality (scores s)) /\
  unit_interval (credibility (scores s)) /\
  unit_interval (engagement (scores s)) /\
  unit_interval (freshness (scores s)) /\
  unit_interval (final_score s).
Proof.
  cbv zeta. cbn [scoreContent scores final_score relevance quality credibility
                 engagement freshness].
  pose proof (scoreRelevance_unit c category) as Hr.
  pose proof (scoreQuality_unit c) as Hq.
  pose proof (clamp_unit : forall s, unit_interval (Qmax 0 (Qmin s 1))) as Hclamp.
  assert (Hc : unit_interval (scoreCredibility c)) by apply Hclamp.
  assert (He : unit_interval (scoreEngagement c)) by apply Hclamp.
  pose proof (scoreFreshness_unit Date_parse now c) as Hf.
  do 5 (split; [assumption|]).
  apply round_percent_unit;
       apply (weighted_unit category
                {| relevance := scoreRelevance c category;
                   quality := scoreQuality c;
                   credibility := scoreCredibility c;
                   engagement := scoreEngagement c;
                   freshness := scoreFreshness Date_parse now c |});
       assumption.
Qed.

End ScoringFacts.

(* ================================================================= *)
(** * Properties of [Array.prototype.sort] as modelled *)

Module SortFacts.

Import Js.
Open Scope Q_scope.

Section Generic.
Context {A : Type} (cmp : A -> A -> Q).

Lemma sort_insert_perm (x : A) (l : list A) :
  Permutation (sort_insert cmp x l) (x :: l).
Proof.
  induction l as [|y r IH]; cbn; [reflexivity|].
  destruct (gt (cmp x y) 0); [|reflexivity].
  rewrite IH. apply perm_swap.
Qed.

Lemma sort_perm (l : list A) : Permutation (sort cmp l) l.
Proof.
  induction l as [|x l IH]; cbn; [reflexivity|].
  rewrite sort_insert_perm. now apply perm_skip.
Qed.

(** A list on which no later element has to move in front of an earlier
    one is left as it is. *)
Lemma sort_fixed (l : list A) :
  StronglySorted (fun a b => cmp a b <= 0) l -> sort cmp l = l.
Proof.
  induction 1 as [|x l Hl IH Hx]; [reflexivity|].
  cbn. fold (sort cmp l). rewrite IH.
  destruct l as [|y r]; [reflexivity|]. cbn.
  inversion Hx as [|? ? Hxy _]; subst.
  destruct (gt (cmp x y) 0) eqn:E; [|reflexivity].
  apply JsFacts.gt_true in E. lra.
Qed.

End Generic.

(** Sorting by a key, largest first: [(a, b) => key(b) - key(a)]. *)
Section Descending.
Context {A : Type} (key : A -> Q).

Let cmp (a b : A) : Q := key b - key a.
Let before (a b : A) : Prop := key b <= key a.
Let has_key (v : Q) (a : A) : bool := Qeq_bool (key a) v.

Lemma sort_insert_desc (x : A) (l : list A) :
  StronglySorted before l -> StronglySorted before (sort_insert cmp x l).
Proof.
  induction 1 as [|y r Hr IH Hy]; cbn.
  - repeat constructor.
  - destruct (gt (cmp x y) 0) eqn:E.
    + apply JsFacts.gt_true in E. unfold cmp in E.
      constructor; [exact IH|].
      rewrite (sort_insert_perm cmp x r). constructor; [|exact Hy].
      unfold before. lra.
    + apply JsFacts.gt_false in E. unfold cmp in E.
      assert (Hxy : key y <= key x) by lra.
      constructor; [constructor; assumption|].
      constructor; [exact Hxy|].
      eapply Forall_impl; [exact Hy|].
      unfold before. intros z Hz. cbn in Hz. lra.
Qed.

Lemma sort_desc (l : list A) : StronglySorted before (sort cmp l).
Proof.
  induction l as [|x l IH]; cbn; [constructor|].
  now apply sort_insert_desc.
Qed.

(** Insertion does not reorder the elements of one key: the inserted
    element only passes elements of a strictly larger key. *)
Lemma sort_insert_stable (v : Q) (x : A) (l : list A) :
  List.filter (has_key v) (sort_insert cmp x l) = List.filter (has_key v) (x :: l).
Proof.
  induction l as [|y r IH]; [reflexivity|].
  cbn [sort_insert]. destruct (gt (cmp x y) 0) eqn:E; [|reflexivity].
  apply JsFacts.gt_true in E. unfold cmp in E.
  cbn [List.filter] in *. rewrite IH.
  destruct (has_key v x) eqn:Ex, (has_key v y) eqn:Ey; try reflexivity.
  unfold has_key in Ex, Ey. apply Qeq_bool_iff in Ex, Ey. lra.
Qed.

Lemma sort_stable (v : Q) (l : list A) :
  List.filter (has_key v) (sort cmp l) = List.filter (has_key v) l.
Proof.
  induction l as [|x l IH]; [reflexivity|].
  cbn [sort foldr]. fold (sort cmp l). rewrite sort_insert_stable.
  cbn [List.filter]. now rewrite IH.
Qed.
End Descending.

End SortFacts.

Module BatchFacts.

Import Js Scoring.
Open Scope Q_scope.

(** C2: for every list of content items, every category and every run
    of the clock, [scoreContentBatch] returns the scored items (a
    permutation of them) sorted by [final_score] in descending order, and
    for each score value the items with that score come in the order they
    have in the input. *)
Theorem scoreContentBatch_sorted_stable
    (Date_parse : string -> option Z) (clock : nat -> Z)
    (contents : list NormalizedContent) (category : Category) :
  let scored := imap (fun i c => scoreContent Date_parse (clock i) c category) contents in
  let out := scoreContentBatch Date_parse clock contents category in
  Permutation out scored /\
  StronglySorted (fun a b => final_score b <= final_score a) out /\
  forall v : Q,
    List.filter (fun s => Qeq_bool (final_score s) v) out =
    List.filter (fun s => Qeq_bool (final_score s) v) scored.
Proof.
  cbv zeta. unfold scoreContentBatch. split; [|split].
  - apply SortFacts.sort_perm.
  - apply (SortFacts.sort_desc final_score).
  - intros v. apply (SortFacts.sort_stable final_score).
Qed.

End BatchFacts.

(* ================================================================= *)
(** * Properties of the composition engine *)

Module AssignFacts.

Import Js Composition Spec.

Lemma foldO_preserves {A S : Type} (f : S -> A -> option S) (P : S -> Prop) :
  (forall st x st', P st -> f st x = Some st' -> P st') ->
  forall xs st st', P st -> foldO f st xs = Some st' -> P st'.
Proof.
  intros Hf xs. induction xs as [|x xs IH]; cbn; intros st st' HP H.
  - now inversion H; subst.
  - destruct (f st x) as [st1|] eqn:E; [|discriminate].
    eapply IH; [|exact H]. eapply Hf; eauto.
Qed.

Lemma foldO_total {A S : Type} (f : S -> A -> option S) (P : S -> Prop) :
  (forall st x, P st -> exists st', f st x = Some st' /\ P st') ->
  forall xs st, P st -> exists st', foldO f st xs = Some st' /\ P st'.
Proof.
  intros Hf xs. induction xs as [|x xs IH]; cbn; intros st HP.
  - eauto.
  - destruct (Hf st x HP) as (st1 & -> & HP1). now apply IH.
Qed.

(** *** The assignment never throws *)

Lemma push_content_total sid st c :
  has_keys st -> exists st', push_content sid st c = Some st' /\ has_keys st'.
Proof.
  intros Hk. unfold push_content. destruct (Hk sid) as [l ->].
  eexists. split; [reflexivity|]. intros s. cbn.
  destruct (decide (sid = s)) as [->|Hne].
  - rewrite lookup_insert_eq. eauto.
  - rewrite lookup_insert_ne by done. apply Hk.
Qed.

Lemma first_pass_total input category st config :
  has_keys st ->
  exists st', first_pass input category st config = Some st' /\ has_keys st'.
Proof.
  intros Hk. unfold first_pass. destruct (eqb (id config) s_action); [eauto|].
  apply (foldO_total _ has_keys); [|exact Hk].
  intros st0 c. apply push_content_total.
Qed.

Lemma second_pass_total input st config :
  has_keys st ->
  exists st', second_pass input st config = Some st' /\ has_keys st'.
Proof.
  intros Hk. unfold second_pass.
  destruct (negb (required config)); [eauto|].
  destruct (eqb (id config) s_action); [eauto|].
  destruct (Hk (id config)) as [l ->].
  destruct (Nat.ltb _ _); [|eauto].
  apply (foldO_total _ has_keys); [|exact Hk].
  intros st0 c. apply push_content_total.
Qed.

Lemma initial_keys :
  keys_present (foldl (fun m config => <[id config := []]> m)
                      (∅ : gmap SectionId (list ScoredContent)) SECTION_CONFIGS).
Proof. intros []; eexists; vm_compute; reflexivity. Qed.

Lemma assignContentToSections_total input category :
  exists m, assignContentToSections input category = Some m /\ keys_present m.
Proof.
  unfold assignContentToSections.
  destruct (foldO_total (first_pass input category) has_keys
              (fun st x => first_pass_total input category st x)
              SECTION_CONFIGS
              {| assignments := foldl (fun m config => <[id config := []]> m) ∅
                                      SECTION_CONFIGS;
                 usedContent := ∅ |} initial_keys) as (st1 & -> & Hk1).
  destruct (foldO_total (second_pass input) has_keys
              (fun st x => second_pass_total input st x)
              SECTION_CONFIGS st1 Hk1) as (st2 & -> & Hk2).
  eauto.
Qed.

(** *** The assignment uses every item at most once *)

Lemma filter_sublist_of {A : Type} (f : A -> bool) (l : list A) :
  List.filter f l `sublist_of` l.
Proof.
  induction l as [|x l IH]; cbn; [constructor|].
  destruct (f x); [now apply sublist_skip | now apply sublist_cons].
Qed.

Lemma elem_of_bool_filter {A : Type} (f : A -> bool) (l : list A) (x : A) :
  x ∈ List.filter f l <-> x ∈ l /\ f x = true.
Proof. rewrite !list_elem_of_In. apply filter_In. Qed.

Lemma assigned_to_insert m sid l s :
  assigned_to (<[sid := l]> m) s = if decide (sid = s) then l else assigned_to m s.
Proof.
  unfold assigned_to. destruct (decide (sid = s)) as [->|Hne].
  - now rewrite lookup_insert_eq.
  - now rewrite lookup_insert_ne.
Qed.

Lemma section_ids_push m sid l c s :
  m !! sid = Some l ->
  section_ids (<[sid := l ++ [c]]> m) s =
    if decide (sid = s) then section_ids m sid ++ [scored_id c] else section_ids m s.
Proof.
  intros Hl. unfold section_ids. rewrite assigned_to_insert.
  destruct (decide (sid = s)); [|reflexivity].
  unfold assigned_to. rewrite Hl. cbn. now rewrite fmap_app.
Qed.

Lemma push_content_inv input sid st c st' :
  assign_inv input st ->
  scored_id c ∉ usedContent st ->
  c ∈ input ->
  push_content sid st c = Some st' ->
  assign_inv input st' /\ usedContent st' = usedContent st ∪ {[scored_id c]}.
Proof.
  intros ((Hnd & Hx) & Hused & Hin) Hfresh Hc Hpush.
  unfold push_content in Hpush.
  destruct (assignments st !! sid) as [l|] eqn:Hl; [|discriminate].
  inversion Hpush; subst st'; clear Hpush.
  unfold assign_inv, assigned_once. cbn [assignments usedContent].
  split; [|reflexivity].
  assert (Hnew : forall s, scored_id c ∉ section_ids (assignments st) s).
  { intros s Hs. apply Hfresh. eapply Hused, Hs. }
  split; [split|split].
  - intros s. rewrite (section_ids_push _ _ l) by done.
    destruct (decide (sid = s)) as [->|]; [|apply Hnd].
    apply NoDup_app. split; [apply Hnd|]. split; [|apply NoDup_singleton].
    intros i Hi Hi'. apply list_elem_of_singleton in Hi'. subst i.
    now apply (Hnew s).
  - intros s1 s2 i Hne. rewrite !(section_ids_push _ _ l) by done.
    destruct (decide (sid = s1)) as [<-|], (decide (sid = s2)) as [<-|];
      try done; rewrite ?elem_of_app, ?list_elem_of_singleton.
    + intros [Hi| ->]; [now apply (Hx sid s2 i) | apply Hnew].
    + intros Hi [Hi'| ->]; [now apply (Hx s1 sid i) | now apply (Hnew s1)].
    + now apply (Hx s1 s2 i).
  - intros s i. rewrite (section_ids_push _ _ l) by done.
    destruct (decide (sid = s)) as [->|].
    + rewrite elem_of_app, list_elem_of_singleton, elem_of_union, elem_of_singleton.
      intros [Hi| ->]; [left; eapply Hused, Hi | now right].
    + intros Hi. apply elem_of_union. left. eapply Hused, Hi.
  - intros s c'. rewrite assigned_to_insert.
    destruct (decide (sid = s)) as [->|]; [|apply Hin].
    rewrite elem_of_app, list_elem_of_singleton.
    intros [Hc'| ->]; [|exact Hc].
    apply (Hin s). unfold assigned_to. now rewrite Hl.
Qed.

(** Pushing a run of distinct, still unused items. *)
Lemma push_all_inv input sid cs st st' :
  assign_inv input st ->
  NoDup (scored_id <$> cs) ->
  (forall c, c ∈ cs -> (scored_id c ∉ usedContent st) /\ (c ∈ input)) ->
  foldO (push_content sid) st cs = Some st' ->
  assign_inv input st'.
Proof.
  revert st. induction cs as [|c cs IH]; cbn; intros st Hinv Hnd Hcs Hfold.
  - now inversion Hfold; subst.
  - destruct (push_content sid st c) as [st1|] eqn:Hpush; [|discriminate].
    apply NoDup_cons in Hnd as [Hc Hnd].
    destruct (Hcs c) as [Hfresh Hin]; [left|].
    destruct (push_content_inv input sid st c st1 Hinv Hfresh Hin Hpush)
      as [Hinv1 Hused1].
    apply (IH st1); try done.
    intros c' Hc'. destruct (Hcs c') as [Hf' Hin']; [now right|].
    split; [|exact Hin']. rewrite Hused1, elem_of_union, elem_of_singleton.
    intros [?| Heq]; [done|]. apply Hc. rewrite <- Heq.
    apply list_elem_of_fmap. eauto.
Qed.

(** The candidates of either pass are distinct and unused. *)
Lemma unused_candidates input used (cs : list ScoredContent) :
  NoDup (scored_id <$> input) ->
  cs `sublist_of` List.filter (unused used) input ->
  NoDup (scored_id <$> cs) /\
  (forall c, c ∈ cs -> (scored_id c ∉ used) /\ (c ∈ input)).
Proof.
  intros Hnd Hsub. split.
  - eapply sublist_NoDup; [exact Hnd|]. apply fmap_sublist.
    etransitivity; [exact Hsub | apply filter_sublist_of].
  - intros c Hc. eapply elem_of_sublist in Hc; [|exact Hsub].
    apply elem_of_bool_filter in Hc as [Hin Hun]. split; [|exact Hin].
    unfold unused in Hun. apply negb_true_iff, bool_decide_eq_false in Hun.
    exact Hun.
Qed.

Lemma first_pass_inv input category st config st' :
  NoDup (scored_id <$> input) ->
  assign_inv input st ->
  first_pass input category st config = Some st' ->
  assign_inv input st'.
Proof.
  intros Hnd Hinv. unfold first_pass.
  destruct (eqb (id config) s_action); [now intros [= <-]|].
  intros Hfold.
  match type of Hfold with foldO _ _ ?cs = _ => set (candidates := cs) in * end.
  destruct (unused_candidates input (usedContent st) candidates Hnd) as [H1 H2].
  { unfold candidates. etransitivity; [apply sublist_take|].
    apply filter_sublist_of. }
  eapply push_all_inv; eauto.
Qed.

Lemma second_pass_inv input st config st' :
  NoDup (scored_id <$> input) ->
  assign_inv input st ->
  second_pass input st config = Some st' ->
  assign_inv input st'.
Proof.
  intros Hnd Hinv. unfold second_pass.
  destruct (negb (required config)); [now intros [= <-]|].
  destruct (eqb (id config) s_action); [now intros [= <-]|].
  destruct (assignments st !! id config) as [assigned|]; [|discriminate].
  destruct (Nat.ltb _ _); [|now intros [= <-]].
  intros Hfold.
  match type of Hfold with foldO _ _ ?cs = _ => set (remaining := cs) in * end.
  destruct (unused_candidates input (usedContent st) remaining Hnd) as [H1 H2].
  { unfold remaining. apply sublist_take. }
  eapply push_all_inv; eauto.
Qed.

Lemma initial_inv input :
  assign_inv input
    {| assignments := foldl (fun m config => <[id config := []]> m) ∅ SECTION_CONFIGS;
       usedContent := ∅ |}.
Proof.
  assert (Hempty : forall s,
    assigned_to (foldl (fun m config => <[id config := []]> m)
                       (∅ : gmap SectionId (list ScoredContent)) SECTION_CONFIGS) s
    = []).
  { intros []; vm_compute; reflexivity. }
  unfold assign_inv, assigned_once, section_ids. cbn [assignments usedContent].
  repeat split; intros *; rewrite ?Hempty; cbn; try constructor;
    rewrite ?elem_of_nil; tauto.
Qed.

Lemma assignContentToSections_inv input category m :
  NoDup (scored_id <$> input) ->
  assignContentToSections input category = Some m ->
  assigned_once m /\ (forall s c, c ∈ assigned_to m s -> c ∈ input).
Proof.
  intros Hnd. unfold assignContentToSections.
  destruct (foldO (first_pass input category) _ _) as [st1|] eqn:H1; [|discriminate].
  destruct (foldO (second_pass input) _ _) as [st2|] eqn:H2; [|discriminate].
  intros [= <-].
  assert (Hinv1 : assign_inv input st1).
  { eapply (foldO_preserves _ (assign_inv input)); [|apply initial_inv|exact H1].
    intros st x st' Hst. now apply first_pass_inv. }
  assert (Hinv2 : assign_inv input st2).
  { eapply (foldO_preserves _ (assign_inv input)); [|exact Hinv1|exact H2].
    intros st x st' Hst. now apply second_pass_inv. }
  destruct Hinv2 as (Honce & _ & Hin). now split.
Qed.

(** C7: for an input list with distinct content ids and any category,
    the section assignment is produced, no content id is listed in two
    different sections, and none twice within a section. *)
Theorem assignment_at_most_one_section
    (input : list ScoredContent) (category : Category) :
  NoDup (scored_id <$> input) ->
  exists m, assignContentToSections input category = Some m /\
    (forall s1 s2 i, s1 <> s2 -> i ∈ section_ids m s1 -> i ∉ section_ids m s2) /\
    (forall s, NoDup (section_ids m s)).
Proof.
  intros Hnd.
  destruct (assignContentToSections_total input category) as (m & Hm & _).
  exists m. split; [exact Hm|].
  destruct (assignContentToSections_inv input category m Hnd Hm) as [[H1 H2] _].
  now split.
Qed.

Lemma assignment_at_most_one_section_witness :
  exists m, assignContentToSections Samples.three_items Tech = Some m /\
    (forall s1 s2 i, s1 <> s2 -> i ∈ section_ids m s1 -> i ∉ section_ids m s2) /\
    (forall s, NoDup (section_ids m s)).
Proof.
  apply (assignment_at_most_one_section Samples.three_items Tech).
  apply (bool_decide_unpack _). vm_compute. reflexivity.
Defined.

End AssignFacts.

Module SelectFacts.

Import Js Composition.

Lemma find_config_defined (sectionId : SectionId) :
  exists cfg, find_config sectionId = Some cfg /\ id cfg = sectionId /\
              preferredTypes cfg <> [].
Proof. destruct sectionId; eexists; (split; [reflexivity|]); now split. Qed.

Lemma selectBlockType_defined
    (c : ScoredContent) (sectionId : SectionId) (category : Category) :
  exists bt : BlockType, selectBlockType c sectionId category = Some bt.
Proof.
  unfold selectBlockType.
  destruct (find_config_defined sectionId) as (cfg & -> & _ & Hne).
  repeat match goal with
         | |- context [if ?b then _ else _] => destruct b; [eauto|]
         end.
  destruct (preferredTypes cfg) as [|bt0 rest]; [done|].
  destruct (typeMapping (type c)) as [mapped|]; cbn [head]; [|eauto].
  destruct (includes _ mapped); eauto.
Qed.

(** C6: [selectBlockType] returns a block type for every content item,
    section id and category; the configuration of every section id is
    found and its list of preferred types is not empty. *)
Theorem selectBlockType_total :
  (forall (c : ScoredContent) (sectionId : SectionId) (category : Category),
     exists bt : BlockType, selectBlockType c sectionId category = Some bt) /\
  (forall sectionId : SectionId,
     exists cfg, find_config sectionId = Some cfg /\ id cfg = sectionId /\
                 preferredTypes cfg <> []).
Proof.
  split; [apply selectBlockType_defined | apply find_config_defined].
Qed.

End SelectFacts.

Module ComposeFacts.

Import Js Composition Spec.
Open Scope M_scope.

Lemma bind_some {A B : Type} (m : M A) (k : A -> M B) w a w' :
  m w = Some (a, w') -> bind m k w = k a w'.
Proof. intros H. unfold bind. now rewrite H. Qed.

Lemma mapM_total {A B : Type} (f : A -> M B) (P : A -> B -> Prop) :
  (forall x w, exists y w', f x w = Some (y, w') /\ P x y) ->
  forall xs w, exists ys w', mapM f xs w = Some (ys, w') /\ Forall2 P xs ys.
Proof.
  intros Hf xs. induction xs as [|x xs IH]; intros w; cbn.
  - exists [], w. split; [reflexivity|constructor].
  - destruct (Hf x w) as (y & w1 & Hy & HP).
    destruct (IH w1) as (ys & w2 & Hys & HPs).
    exists (y :: ys), w2. split; [|now constructor].
    rewrite (bind_some _ _ _ _ _ Hy), (bind_some _ _ _ _ _ Hys). reflexivity.
Qed.

Section Environment.
Variable uuidv4 : nat -> string.
Variable toISOString : nat -> string.

(** The base rule of [buildBlock]: the block has the requested type, it
    is expanded only in the hook section, and its priority follows the
    final score. *)
Lemma buildBlock_total (c : ScoredContent) (bt : BlockType) (sid : SectionId) w :
  exists b w',
    BlockBuilder.buildBlock uuidv4 toISOString c bt sid w = Some (b, w') /\
    block_type b = bt /\
    visibility b =
      {| initial := if eqb sid s_hook then expanded else collapsed;
         priority := if gt (final_score c) 0.7 then high else medium |} /\
    style b = {| padding := pad_medium |}.
Proof.
  unfold BlockBuilder.buildBlock, bind, Helpers.generateBlockId, Helpers.generateId.
  destruct bt; cbn; eauto 10.
Qed.

Lemma buildSection_total (sid : SectionId) (contents : list ScoredContent)
    (category : Category) w :
  exists cfg bs w',
    find_config sid = Some cfg /\ id cfg = sid /\
    buildSection uuidv4 toISOString sid contents category w =
      Some ({| section_id := sid;
               order := cfg_order cfg;
               layout := if eqb sid s_hook then full else contained;
               sec_visibility :=
                 {| sec_initial := sec_visible;
                    min_content_required := minBlocks cfg |};
               blocks := bs |}, w') /\
    Forall2 (fun c b => selectBlockType c sid category = Some (block_type b))
            contents bs.
Proof.
  destruct (SelectFacts.find_config_defined sid) as (cfg & Hcfg & Hid & _).
  unfold buildSection.
  match goal with
  | |- context [mapM ?f contents] =>
      destruct (mapM_total f
                  (fun c b => selectBlockType c sid category = Some (block_type b)))
        with (xs := contents) (w := w) as (bs & w' & Hbs & HF)
  end.
  { intros c w0.
    destruct (SelectFacts.selectBlockType_defined c sid category) as [bt Hbt].
    destruct (buildBlock_total c bt sid w0) as (b & w1 & Hb & Hty & _).
    exists b, w1. rewrite Hbt. cbn. split; [exact Hb | now rewrite Hty]. }
  exists cfg, bs, w'. split; [exact Hcfg|]. split; [exact Hid|]. split; [|exact HF].
  rewrite (bind_some _ _ _ _ _ Hbs), Hcfg. reflexivity.
Qed.

Lemma buildCTASection_total (userId title : string) w :
  exists sec w',
    buildCTASection uuidv4 userId title w = Some (sec, w') /\ is_cta_section sec.
Proof.
  unfold buildCTASection, bind, Helpers.generateBlockId, Helpers.generateId.
  cbn. eexists _, _. split; [reflexivity|].
  unfold is_cta_section. cbn. repeat split. eexists. repeat split.
Qed.

(** *** The loop that builds the sections *)

Lemma compose_step_build assigned userId title category secs cfg l w :
  eqb (id cfg) s_action = false ->
  assigned !! id cfg = Some l ->
  required cfg = true \/ l <> [] ->
  exists cfg' sec w',
    find_config (id cfg) = Some cfg' /\
    compose_step uuidv4 toISOString assigned userId title category secs cfg w =
      Some (secs ++ [sec], w') /\
    built_from assigned category (id cfg) (cfg_order cfg') sec.
Proof.
  intros Hact Hl Hreq. unfold compose_step. rewrite Hact, Hl.
  unfold bind at 1. cbn [assert_defined].
  assert (Hskip : (negb (required cfg) && Nat.eqb (length l) 0)%bool = false).
  { destruct Hreq as [->|Hne]; [reflexivity|].
    destruct l; [done|]. cbn. apply andb_false_r. }
  assert (Hgo : (Nat.ltb 0 (length l) || required cfg)%bool = true).
  { destruct Hreq as [->|Hne]; [apply orb_true_r|]. destruct l; [done|reflexivity]. }
  rewrite Hskip, Hgo.
  destruct (buildSection_total (id cfg) l category w)
    as (cfg' & bs & w' & Hcfg & _ & Hsec & HF).
  exists cfg'. eexists. exists w'. split; [exact Hcfg|].
  split; [rewrite (bind_some _ _ _ _ _ Hsec); reflexivity|].
  unfold built_from, assigned_to. rewrite Hl. cbn. now repeat split.
Qed.

Lemma compose_step_skip assigned userId title category secs cfg w :
  eqb (id cfg) s_action = false ->
  assigned !! id cfg = Some [] ->
  required cfg = false ->
  compose_step uuidv4 toISOString assigned userId title category secs cfg w =
    Some (secs, w).
Proof.
  intros Hact Hl Hreq. unfold compose_step. rewrite Hact, Hl, Hreq. reflexivity.
Qed.

Lemma compose_step_action assigned userId title category secs cfg w :
  eqb (id cfg) s_action = true ->
  exists sec w',
    compose_step uuidv4 toISOString assigned userId title category secs cfg w =
      Some (secs ++ [sec], w') /\
    is_cta_section sec.
Proof.
  intros Hact. unfold compose_step. rewrite Hact.
  destruct (buildCTASection_total userId title w) as (sec & w' & Hsec & Hcta).
  exists sec, w'. split; [|exact Hcta].
  now rewrite (bind_some _ _ _ _ _ Hsec).
Qed.

(** The sections in the order in which the loop pushes them. *)
Lemma compose_loop assigned userId title category w :
  keys_present assigned ->
  exists h c k pr a w',
    foldM (compose_step uuidv4 toISOString assigned userId title category)
          [] SECTION_CONFIGS w = Some ([h; c; k] ++ pr ++ [a], w') /\
    built_from assigned category s_hook 1%Q h /\
    built_from assigned category s_credibility 2%Q c /\
    built_from assigned category s_work 3%Q k /\
    (pr = [] /\ assigned_to assigned s_process = [] \/
     exists x, pr = [x] /\ built_from assigned category s_process 4%Q x /\
               assigned_to assigned s_process <> []) /\
    is_cta_section a.
Proof.
  intros Hkeys. unfold SECTION_CONFIGS. cbn [foldM].
  destruct (Hkeys s_hook) as [lh Hlh].
  destruct (Hkeys s_credibility) as [lc Hlc].
  destruct (Hkeys s_work) as [lk Hlk].
  destruct (Hkeys s_process) as [lp Hlp].
  match goal with
  | |- context [bind (compose_step _ _ _ _ _ _ ?secs ?cfg) _ w] =>
      destruct (compose_step_build assigned userId title category secs cfg lh w)
        as (cfg1 & h & w1 & Hc1 & Hs1 & Hb1); [reflexivity|exact Hlh|now left|]
  end.
  rewrite (bind_some _ _ _ _ _ Hs1).
  match goal with
  | |- context [bind (compose_step _ _ _ _ _ _ ?secs ?cfg) _ w1] =>
      destruct (compose_step_build assigned userId title category secs cfg lc w1)
        as (cfg2 & c & w2 & Hc2 & Hs2 & Hb2); [reflexivity|exact Hlc|now left|]
  end.
  rewrite (bind_some _ _ _ _ _ Hs2).
  match goal with
  | |- context [bind (compose_step _ _ _ _ _ _ ?secs ?cfg) _ w2] =>
      destruct (compose_step_build assigned userId title category secs cfg lk w2)
        as (cfg3 & k & w3 & Hc3 & Hs3 & Hb3); [reflexivity|exact Hlk|now left|]
  end.
  rewrite (bind_some _ _ _ _ _ Hs3).
  injection Hc1 as <-. injection Hc2 as <-. injection Hc3 as <-.
  cbn [cfg_order] in Hb1, Hb2, Hb3. cbn [app] in *.
  destruct lp as [|p0 lp].
  - match goal with
    | |- context [bind (compose_step _ _ _ _ _ _ ?secs ?cfg) _ w3] =>
        rewrite (bind_some _ _ _ _ _
                   (compose_step_skip assigned userId title category secs cfg w3
                      eq_refl Hlp eq_refl))
    end.
    match goal with
    | |- context [bind (compose_step _ _ _ _ _ _ ?secs ?cfg) _ w3] =>
        destruct (compose_step_action assigned userId title category secs cfg w3)
          as (a & w5 & Hs5 & Hb5); [reflexivity|]
    end.
    rewrite (bind_some _ _ _ _ _ Hs5).
    exists h, c, k, [], a, w5. split; [reflexivity|].
    do 3 (split; [assumption|]). split; [|exact Hb5].
    left. split; [reflexivity|]. unfold assigned_to. now rewrite Hlp.
  - match goal with
    | |- context [bind (compose_step _ _ _ _ _ _ ?secs ?cfg) _ w3] =>
        destruct (compose_step_build assigned userId title category secs cfg
                    (p0 :: lp) w3)
          as (cfg4 & x & w4 & Hc4 & Hs4 & Hb4); [reflexivity|exact Hlp|now right|]
    end.
    rewrite (bind_some _ _ _ _ _ Hs4).
    injection Hc4 as <-. cbn [cfg_order] in Hb4. cbn [app] in *.
    match goal with
    | |- context [bind (compose_step _ _ _ _ _ _ ?secs ?cfg) _ w4] =>
        destruct (compose_step_action assigned userId title category secs cfg w4)
          as (a & w5 & Hs5 & Hb5); [reflexivity|]
    end.
    rewrite (bind_some _ _ _ _ _ Hs5).
    exists h, c, k, [x], a, w5. split; [reflexivity|].
    do 3 (split; [assumption|]). split; [|exact Hb5].
    right. exists x. split; [reflexivity|]. split; [exact Hb4|].
    unfold assigned_to. now rewrite Hlp.
Qed.

Lemma generateId_total (prefix : string) w :
  exists i w', Helpers.generateId uuidv4 prefix w = Some (i, w').
Proof. unfold Helpers.generateId. eauto. Qed.

Lemma now_total w : exists s w', Helpers.now toISOString w = Some (s, w').
Proof. unfold Helpers.now. eauto. Qed.

(** The pushed sections are already in the order that the final
    [sections.sort] asks for. *)
Lemma pushed_in_order (h c k a : PSection) (pr : list PSection) :
  order h = 1%Q -> order c = 2%Q -> order k = 3%Q -> order a = 5%Q ->
  pr = [] \/ (exists x, pr = [x] /\ order x = 4%Q) ->
  StronglySorted (fun a b => (order a - order b <= 0)%Q) ([h; c; k] ++ pr ++ [a]) /\
  ascending ([h; c; k] ++ pr ++ [a]).
Proof.
  intros Hh Hc Hk Ha [->|(x & -> & Hx)]; cbn [app]; unfold ascending; split;
    repeat (constructor; rewrite ?Forall_cons, ?Forall_nil);
    rewrite ?Hh, ?Hc, ?Hk, ?Ha, ?Hx; repeat split; lra.
Qed.

(** What [composePortfolio] returns, for every input. *)
Lemma composePortfolio_shape (input : list ScoredContent) (options : ComposeOptions) w :
  exists p w' m h c k pr a,
    composePortfolio uuidv4 toISOString input options w = Some (p, w') /\
    assignContentToSections input (opt_category options) = Some m /\
    sections p = [h; c; k] ++ pr ++ [a] /\
    built_from m (opt_category options) s_hook 1%Q h /\
    built_from m (opt_category options) s_credibility 2%Q c /\
    built_from m (opt_category options) s_work 3%Q k /\
    (pr = [] /\ assigned_to m s_process = [] \/
     exists x, pr = [x] /\ built_from m (opt_category options) s_process 4%Q x /\
               assigned_to m s_process <> []) /\
    is_cta_section a.
Proof.
  unfold composePortfolio. cbv zeta.
  destruct (generateId_total "p" w) as (pid & w1 & Hpid).
  unfold Helpers.generatePortfolioId. rewrite (bind_some _ _ _ _ _ Hpid).
  destruct (AssignFacts.assignContentToSections_total input (opt_category options))
    as (m & Hm & Hkeys).
  rewrite Hm. unfold bind at 1. cbn [assert_defined].
  destruct (compose_loop m (userId options) (opt_title options)
              (opt_category options) w1 Hkeys)
    as (h & c & k & pr & a & w2 & Hloop & Hh & Hc & Hk & Hpr & Ha).
  rewrite (bind_some _ _ _ _ _ Hloop).
  destruct (now_total w2) as (created & w3 & Hcreated).
  destruct (now_total w3) as (updated & w4 & Hupdated).
  rewrite (bind_some _ _ _ _ _ Hcreated), (bind_some _ _ _ _ _ Hupdated).
  assert (Hsorted :
    StronglySorted (fun a b => (order a - order b <= 0)%Q) ([h; c; k] ++ pr ++ [a])).
  { apply pushed_in_order; try apply Hh; try apply Hc; try apply Hk; try apply Ha.
    destruct Hpr as [[-> _]|(x & -> & Hx & _)]; [now left|].
    right. exists x. split; [reflexivity|apply Hx]. }
  rewrite (SortFacts.sort_fixed _ _ Hsorted).
  eexists _, w4, m, h, c, k, pr, a. split; [reflexivity|].
  cbn [sections]. repeat (split; [done|]). exact Ha.
Qed.

End Environment.

End ComposeFacts.

Module PortfolioFacts.

Import Js Composition Spec.

Lemma action_only (h c k a : PSection) (pr : list PSection) :
  section_id h = s_hook -> section_id c = s_credibility ->
  section_id k = s_work -> section_id a = s_action ->
  pr = [] \/ (exists x, pr = [x] /\ section_id x = s_process) ->
  List.filter (fun s => eqb (section_id s) s_action) ([h; c; k] ++ pr ++ [a]) = [a] /\
  (section_id <$> [h; c; k] ++ pr ++ [a] = [s_hook; s_credibility; s_work; s_action] \/
   section_id <$> [h; c; k] ++ pr ++ [a] =
     [s_hook; s_credibility; s_work; s_process; s_action]).
Proof.
  intros Hh Hc Hk Ha [->|(x & -> & Hx)]; cbn; rewrite ?Hh, ?Hc, ?Hk, ?Ha, ?Hx;
    cbn; auto.
Qed.

Lemma process_ids (m : gmap SectionId (list ScoredContent)) (category : Category)
    (pr : list PSection) :
  pr = [] /\ assigned_to m s_process = [] \/
  (exists x, pr = [x] /\ built_from m category s_process 4%Q x /\
             assigned_to m s_process <> []) ->
  (pr = [] \/ exists x, pr = [x] /\ section_id x = s_process) /\
  (pr = [] \/ exists x, pr = [x] /\ order x = 4%Q).
Proof.
  intros [[-> _]|(x & -> & (Hid & Hord & _) & _)]; split; eauto.
Qed.

(** C5: composing from an empty list returns a portfolio whose sections
    are hook, credibility and work, each with no blocks, followed by the
    action section with exactly one block, of type cta; there is no
    process section. *)
Theorem compose_empty_content
    (uuidv4 toISOString : nat -> string) (options : ComposeOptions) (w : World) :
  exists p w' h c k a,
    composePortfolio uuidv4 toISOString [] options w = Some (p, w') /\
    sections p = [h; c; k; a] /\
    (section_id h = s_hook /\ blocks h = []) /\
    (section_id c = s_credibility /\ blocks c = []) /\
    (section_id k = s_work /\ blocks k = []) /\
    (section_id a = s_action /\ exists b, blocks a = [b] /\ block_type b = bt_cta) /\
    s_process ∉ (section_id <$> sections p).
Proof.
  destruct (ComposeFacts.composePortfolio_shape uuidv4 toISOString [] options w)
    as (p & w' & m & h & c & k & pr & a & Hp & Hm & Hsecs & Hh & Hc & Hk & Hpr & Ha).
  assert (Hnone : forall s, assigned_to m s = []).
  { intros s.
    destruct (AssignFacts.assignContentToSections_inv [] _ m (NoDup_nil_2) Hm)
      as [_ Hin].
    destruct (assigned_to m s) as [|x l] eqn:E; [reflexivity|].
    exfalso. eapply not_elem_of_nil, (Hin s x). rewrite E. left. }
  assert (Hblocks : forall sid ord sec,
            built_from m (opt_category options) sid ord sec ->
            section_id sec = sid /\ blocks sec = []).
  { intros sid ord sec (Hid & _ & HF). split; [exact Hid|].
    rewrite Hnone in HF. now apply Forall2_nil_inv_l in HF. }
  assert (pr = []) as ->.
  { destruct Hpr as [[-> _]|(x & _ & _ & Hne)]; [reflexivity|].
    now rewrite Hnone in Hne. }
  cbn [app] in Hsecs.
  destruct Ha as (Haid & _ & b & Hb & Hty & _).
  exists p, w', h, c, k, a. split; [exact Hp|]. split; [exact Hsecs|].
  split; [eapply Hblocks, Hh|]. split; [eapply Hblocks, Hc|].
  split; [eapply Hblocks, Hk|]. split; [split; [exact Haid|eauto]|].
  rewrite Hsecs. cbn.
  rewrite (proj1 (Hblocks _ _ _ Hh)), (proj1 (Hblocks _ _ _ Hc)),
          (proj1 (Hblocks _ _ _ Hk)), Haid.
  rewrite !elem_of_cons, elem_of_nil. intros H. decompose [or] H; done.
Qed.

(** C8: for every input and category [composePortfolio] returns a
    portfolio whose sections have strictly increasing [order]; they are
    hook, credibility, work and action, with process between work and
    action when it is present. *)
Theorem sections_strictly_ordered
    (uuidv4 toISOString : nat -> string) (input : list ScoredContent)
    (options : ComposeOptions) (w : World) :
  exists p w',
    composePortfolio uuidv4 toISOString input options w = Some (p, w') /\
    ascending (sections p) /\
    (section_id <$> sections p = [s_hook; s_credibility; s_work; s_action] \/
     section_id <$> sections p =
       [s_hook; s_credibility; s_work; s_process; s_action]).
Proof.
  destruct (ComposeFacts.composePortfolio_shape uuidv4 toISOString input options w)
    as (p & w' & m & h & c & k & pr & a & Hp & Hm & Hsecs & Hh & Hc & Hk & Hpr & Ha).
  destruct (process_ids _ _ _ Hpr) as [Hpid Hpord].
  exists p, w'. split; [exact Hp|]. rewrite Hsecs. split.
  - apply ComposeFacts.pushed_in_order;
      try apply Hh; try apply Hc; try apply Hk; try apply Ha; exact Hpord.
  - apply action_only;
      try apply Hh; try apply Hc; try apply Hk; try apply Ha; exact Hpid.
Qed.

(** C9: every portfolio that [composePortfolio] returns has exactly one
    action section, and that section holds exactly one block, of type
    cta. *)
Theorem action_section_one_cta
    (uuidv4 toISOString : nat -> string) (input : list ScoredContent)
    (options : ComposeOptions) (w : World) :
  exists p w' a b,
    composePortfolio uuidv4 toISOString input options w = Some (p, w') /\
    List.filter (fun s => eqb (section_id s) s_action) (sections p) = [a] /\
    blocks a = [b] /\
    block_type b = bt_cta.
Proof.
  destruct (ComposeFacts.composePortfolio_shape uuidv4 toISOString input options w)
    as (p & w' & m & h & c & k & pr & a & Hp & Hm & Hsecs & Hh & Hc & Hk & Hpr & Ha).
  destruct (process_ids _ _ _ Hpr) as [Hpid _].
  destruct Ha as (Haid & Hord & b & Hb & Hty & Hvis).
  exists p, w', a, b. split; [exact Hp|]. rewrite Hsecs.
  split; [|now split].
  apply action_only; try apply Hh; try apply Hc; try apply Hk; assumption.
Qed.

(** C10: the cta block of the action section is expanded and of high
    priority, whereas a block that [buildBlock] builds for the action
    section is collapsed and has the priority that the item's final
    score gives it. *)
Theorem cta_block_expanded_high
    (uuidv4 toISOString : nat -> string) (input : list ScoredContent)
    (options : ComposeOptions) (w : World) :
  (exists p w' a b,
     composePortfolio uuidv4 toISOString input options w = Some (p, w') /\
     List.filter (fun s => eqb (section_id s) s_action) (sections p) = [a] /\
     blocks a = [b] /\
     block_type b = bt_cta /\
     initial (visibility b) = expanded /\
     priority (visibility b) = high) /\
  (forall (c : ScoredContent) (bt : BlockType) (w0 : World),
     exists b' w1,
       BlockBuilder.buildBlock uuidv4 toISOString c bt s_action w0 = Some (b', w1) /\
       initial (visibility b') = collapsed /\
       priority (visibility b') =
         if gt (final_score c) 0.7 then high else medium).
Proof.
  split.
  - destruct (ComposeFacts.composePortfolio_shape uuidv4 toISOString input options w)
      as (p & w' & m & h & c & k & pr & a & Hp & Hm & Hsecs & Hh & Hc & Hk & Hpr & Ha).
    destruct (process_ids _ _ _ Hpr) as [Hpid _].
    destruct Ha as (Haid & Hord & b & Hb & Hty & Hvis).
    exists p, w', a, b. split; [exact Hp|]. rewrite Hsecs, Hvis.
    split; [|now repeat split].
    apply action_only; try apply Hh; try apply Hc; try apply Hk; assumption.
  - intros c bt w0.
    destruct (ComposeFacts.buildBlock_total uuidv4 toISOString c bt s_action w0)
      as (b' & w1 & Hb & _ & Hvis & _).
    exists b', w1. split; [exact Hb|]. now rewrite Hvis.
Qed.

End PortfolioFacts.

(* ================================================================= *)
(** * The pipeline on the sample inputs *)

Module Examples.

Import Js Scoring Composition Spec Samples.

Example batch_three :
  (fun s : ScoredContent => (content_id s, final_score s)) <$> three_items =
  [("c_1a2b3c4d5e6f", 0.47%Q); ("c_vid000000001", 0.37%Q);
   ("c_pdf000000001", 0.35%Q)]%string.
Proof. vm_compute. reflexivity. Qed.

Example assign_three :
  ids_by_section three_items Tech =
  Some [["c_vid000000001"]; ["c_1a2b3c4d5e6f"; "c_pdf000000001"]; []; []; []]%string.
Proof. vm_compute. reflexivity. Qed.

Example outline_three :
  outline three_items Tech =
  Some [(s_hook, [bt_media]);
        (s_credibility, [bt_expandable_text; bt_expandable_text]);
        (s_work, []);
        (s_action, [bt_cta])].
Proof. vm_compute. reflexivity. Qed.

(** An "about" text is taken by the process section, which is then
    emitted between work and action. *)
Example outline_about :
  outline [scored about_text] Tech =
  Some [(s_hook, []); (s_credibility, []); (s_work, []);
        (s_process, [bt_expandable_text]); (s_action, [bt_cta])].
Proof. vm_compute. reflexivity. Qed.

Example outline_empty :
  outline [] Finance =
  Some [(s_hook, []); (s_credibility, []); (s_work, []); (s_action, [bt_cta])].
Proof. vm_compute. reflexivity. Qed.

End Examples.

(* ================================================================= *)
(** * Further properties of the section assignment *)

Module TwoPassFacts.

Import Composition Spec TwoPass.

Lemma push_all_run sid cs :
  forall st l,
    assignments st !! sid = Some l ->
    foldO (push_content sid) st cs = Some (pushed st sid l cs).
Proof.
  induction cs as [|c cs IH]; intros st l Hl; cbn [foldO].
  - f_equal. unfold pushed, ids_of. cbn.
    rewrite app_nil_r, (insert_id _ _ _ Hl), (right_id_L ∅ (∪)).
    now destruct st.
  - unfold push_content at 1. rewrite Hl.
    rewrite (IH _ (l ++ [c])) by (cbn; apply lookup_insert_eq).
    f_equal. unfold pushed, ids_of. cbn.
    rewrite insert_insert_eq, <- app_assoc. cbn.
    f_equal. now rewrite (assoc_L (∪)).
Qed.

Lemma first_pass_run input category st cfg l :
  eqb (id cfg) s_action = false ->
  assignments st !! id cfg = Some l ->
  first_pass input category st cfg =
    Some (pushed st (id cfg) l
            (candidates input category (usedContent st) (contentFilter cfg)
                        (maxBlocks cfg))).
Proof.
  intros Hact Hl. unfold first_pass. rewrite Hact. now apply push_all_run.
Qed.

Lemma second_pass_run input st cfg l :
  required cfg = true ->
  eqb (id cfg) s_action = false ->
  assignments st !! id cfg = Some l ->
  second_pass input st cfg =
    Some (pushed st (id cfg) l (remaining input (usedContent st) (minBlocks cfg) l)).
Proof.
  intros Hreq Hact Hl. unfold second_pass, remaining. rewrite Hreq, Hact, Hl.
  cbn [negb].
  destruct (Nat.ltb (length l) (minBlocks cfg)); [now apply push_all_run|].
  rewrite <- (push_all_run (id cfg) [] st l Hl). reflexivity.
Qed.

(** The loops of [assignContentToSections] compute [run]. *)
Lemma assign_run input category :
  exists m,
    assignContentToSections input category = Some m /\
    forall s, assigned_to m s = assigned_in (run input category) s.
Proof.
  unfold assignContentToSections, SECTION_CONFIGS. cbn [foldl foldO id].
  repeat (erewrite first_pass_run;
          [|reflexivity|cbn; now simplify_map_eq]; cbn [id maxBlocks contentFilter]).
  change (first_pass input category ?st ?cfg) with (Some st).
  cbn [foldO].
  repeat (erewrite second_pass_run;
          [|reflexivity|reflexivity|cbn; now simplify_map_eq];
          cbn [id minBlocks]).
  eexists. split; [reflexivity|].
  intros []; unfold assigned_to, pushed; cbn; simplify_map_eq; reflexivity.
Qed.

(** *** Facts about [candidates] and [remaining] *)

Lemma elem_of_ids_of (cs : list ScoredContent) (i : string) :
  i ∈ ids_of cs <-> exists c, c ∈ cs /\ scored_id c = i.
Proof.
  unfold ids_of. rewrite elem_of_list_to_set, list_elem_of_fmap.
  split; intros (c & H1 & H2); exists c; split; congruence || done.
Qed.

Lemma candidates_sublist input category used f n :
  candidates input category used f n `sublist_of` input.
Proof.
  unfold candidates. etransitivity; [apply sublist_take|].
  etransitivity; apply AssignFacts.filter_sublist_of.
Qed.

Lemma candidates_length input category used f n :
  length (candidates input category used f n) <= n.
Proof. unfold candidates. rewrite length_take. lia. Qed.

Lemma candidates_pass input category used f n c :
  c ∈ candidates input category used f n -> f c category = true.
Proof.
  unfold candidates. intros Hc.
  eapply elem_of_sublist in Hc; [|apply sublist_take].
  now apply AssignFacts.elem_of_bool_filter in Hc as [_ Hf].
Qed.

(** With [minBlocks = 1] the backfill adds nothing, or a single unused
    item to a section that the first pass left empty. *)
Lemma remaining_one input used l :
  remaining input used 1 l = [] \/
  (l = [] /\ exists c, remaining input used 1 l = [c] /\ c ∈ input).
Proof.
  unfold remaining. destruct l as [|x l]; cbn; [|now left].
  destruct (List.filter (unused used) input) as [|c r] eqn:E; cbn; [now left|].
  right. split; [reflexivity|]. exists c. split; [reflexivity|].
  assert (Hc : c ∈ List.filter (unused used) input) by (rewrite E; left).
  now apply AssignFacts.elem_of_bool_filter in Hc as [Hc _].
Qed.

Lemma remaining_none_all_used input used :
  remaining input used 1 [] = [] ->
  forall c, c ∈ input -> scored_id c ∈ used.
Proof.
  unfold remaining. cbn. intros H c Hc.
  destruct (List.filter (unused used) input) as [|x r] eqn:E; [|discriminate].
  destruct (decide (scored_id c ∈ used)) as [|Hn]; [done|].
  assert (Hin : c ∈ List.filter (unused used) input).
  { apply AssignFacts.elem_of_bool_filter. split; [exact Hc|].
    unfold unused. apply negb_true_iff, bool_decide_eq_false. exact Hn. }
  rewrite E in Hin. now apply elem_of_nil in Hin.
Qed.

(** A first-pass list followed by its backfill. *)
Lemma with_backfill input used l :
  l ++ remaining input used 1 l = l \/
  (l = [] /\ exists c, l ++ remaining input used 1 l = [c] /\ c ∈ input).
Proof.
  destruct (remaining_one input used l) as [->|(-> & c & -> & Hc)].
  - left. apply app_nil_r.
  - right. split; [reflexivity|]. now exists c.
Qed.

Lemma run_sublist input category s :
  assigned_in (run input category) s `sublist_of` input.
Proof.
  destruct s; cbn [assigned_in run hook1 hook2 cred1 cred2 work1 work2 proc1];
    try apply candidates_sublist; try apply sublist_nil_l;
    match goal with
    | |- ?l ++ remaining _ ?u 1 ?l `sublist_of` _ =>
        destruct (with_backfill input u l) as [->|(_ & c & -> & Hc)];
          [apply candidates_sublist | now apply singleton_sublist_l]
    end.
Qed.

Lemma run_capacity input category s :
  length (assigned_in (run input category) s) <= capacity s.
Proof.
  destruct s; cbn [assigned_in run hook1 hook2 cred1 cred2 work1 work2 proc1];
    change (capacity s_hook) with 2; change (capacity s_credibility) with 3;
    change (capacity s_work) with 6; change (capacity s_process) with 2;
    try apply candidates_length; try (cbn; lia);
    match goal with
    | |- length (?l ++ remaining _ ?u 1 ?l) <= _ =>
        destruct (with_backfill input u l) as [->|(_ & c & -> & Hc)];
          [apply candidates_length | cbn; lia]
    end.
Qed.

Lemma run_filter input category s c :
  c ∈ assigned_in (run input category) s ->
  filter_of s c category = true \/ assigned_in (run input category) s = [c].
Proof.
  destruct s; cbn [assigned_in run hook1 hook2 cred1 cred2 work1 work2 proc1];
    change (filter_of s_hook) with hook_filter;
    change (filter_of s_credibility) with credibility_filter;
    change (filter_of s_work) with work_filter;
    change (filter_of s_process) with process_filter;
    try (intros Hc; left; eapply candidates_pass, Hc);
    try (intros Hc; now apply elem_of_nil in Hc);
    match goal with
    | |- _ ∈ ?l ++ remaining _ ?u 1 ?l -> _ =>
        destruct (with_backfill input u l) as [->|(_ & c' & -> & Hc')];
          [intros Hc; left; eapply candidates_pass, Hc
          |intros Hc; apply list_elem_of_singleton in Hc; subst; now right]
    end.
Qed.

Lemma run_process_filter input category c :
  c ∈ assigned_in (run input category) s_process ->
  process_filter c category = true.
Proof. cbn. apply candidates_pass. Qed.

(** X1: for every input and category each section is assigned at most
    the [maxBlocks] of its configuration, and the action section is
    assigned nothing. *)
Theorem assignment_within_capacity
    (input : list ScoredContent) (category : Category) :
  exists m, assignContentToSections input category = Some m /\
    (forall s, length (assigned_to m s) <= capacity s) /\
    assigned_to m s_action = [].
Proof.
  destruct (assign_run input category) as (m & Hm & Hrun).
  exists m. split; [exact Hm|]. split.
  - intros s. rewrite Hrun. apply run_capacity.
  - now rewrite Hrun.
Qed.

(** X2: the items of every section are items of the input, and they
    come in the order in which the input lists them. *)
Theorem assignment_keeps_input_order
    (input : list ScoredContent) (category : Category) :
  exists m, assignContentToSections input category = Some m /\
    forall s, assigned_to m s `sublist_of` input.
Proof.
  destruct (assign_run input category) as (m & Hm & Hrun).
  exists m. split; [exact Hm|]. intros s. rewrite Hrun. apply run_sublist.
Qed.

(** X3: an item that a section holds passes the content filter of that
    section, unless it is the only item of the section (the backfill of
    a required section ignores the filter); the optional process section
    only holds items that pass its filter. *)
Theorem assignment_respects_filters
    (input : list ScoredContent) (category : Category) :
  exists m, assignContentToSections input category = Some m /\
    (forall s c, c ∈ assigned_to m s ->
       filter_of s c category = true \/ assigned_to m s = [c]) /\
    (forall c, c ∈ assigned_to m s_process -> process_filter c category = true).
Proof.
  destruct (assign_run input category) as (m & Hm & Hrun).
  exists m. split; [exact Hm|]. split.
  - intros s c. rewrite Hrun. apply run_filter.
  - intros c. rewrite Hrun. apply run_process_filter.
Qed.

(** *** Backfill *)

Lemma same_id_same_item (input : list ScoredContent) (c c' : ScoredContent) :
  NoDup (scored_id <$> input) ->
  c ∈ input -> c' ∈ input -> scored_id c = scored_id c' -> c = c'.
Proof.
  induction input as [|x l IH]; intros Hnd Hc Hc' Heq.
  - now apply elem_of_nil in Hc.
  - cbn in Hnd. apply NoDup_cons in Hnd as [Hx Hnd].
    apply elem_of_cons in Hc as [->|Hc], Hc' as [->|Hc']; try done.
    + exfalso. apply Hx. rewrite Heq. apply list_elem_of_fmap. eauto.
    + exfalso. apply Hx. rewrite <- Heq. apply list_elem_of_fmap. eauto.
    + now apply IH.
Qed.

Lemma in_by_id (input l : list ScoredContent) (c : ScoredContent) :
  NoDup (scored_id <$> input) ->
  l `sublist_of` input -> c ∈ input -> scored_id c ∈ ids_of l -> c ∈ l.
Proof.
  intros Hnd Hsub Hc Hid. apply elem_of_ids_of in Hid as (c' & Hc' & Heq).
  assert (c = c') as ->; [|exact Hc'].
  eapply same_id_same_item; eauto. eapply elem_of_sublist; eauto.
Qed.

Lemma app_remaining_nil input used l :
  l ++ remaining input used 1 l = [] ->
  l = [] /\ remaining input used 1 [] = [].
Proof. intros H. apply app_eq_nil in H as [-> H]. now split. Qed.

Lemma run_backfill_complete input category s c :
  NoDup (scored_id <$> input) ->
  s = s_hook \/ s = s_credibility \/ s = s_work ->
  assigned_in (run input category) s = [] ->
  c ∈ input ->
  exists s', c ∈ assigned_in (run input category) s'.
Proof.
  intros Hnd Hs Hempty Hc.
  assert (Hfind : forall l,
            l `sublist_of` input -> scored_id c ∈ ids_of l -> c ∈ l)
    by (intros l Hl Hi; eapply in_by_id; eauto).
  pose proof (run_sublist input category s_hook) as Hh.
  pose proof (run_sublist input category s_credibility) as Hk.
  pose proof (run_sublist input category s_work) as Hw.
  pose proof (run_sublist input category s_process) as Hp.
  cbn [assigned_in run hook1 hook2 cred1 cred2 work1 work2 proc1] in *.
  set (h1 := candidates input category ∅ hook_filter 2) in *.
  set (u1 := ∅ ∪ ids_of h1) in *.
  set (c1 := candidates input category u1 credibility_filter 3) in *.
  set (u2 := u1 ∪ ids_of c1) in *.
  set (k1 := candidates input category u2 work_filter 6) in *.
  set (u3 := u2 ∪ ids_of k1) in *.
  set (p1 := candidates input category u3 process_filter 2) in *.
  set (u4 := u3 ∪ ids_of p1) in *.
  set (h2 := remaining input u4 1 h1) in *.
  set (u5 := u4 ∪ ids_of h2) in *.
  set (c2 := remaining input u5 1 c1) in *.
  set (u6 := u5 ∪ ids_of c2) in *.
  assert (Hused : scored_id c ∈ u6).
  { destruct Hs as [->|[->| ->]]; cbn in Hempty;
      apply app_remaining_nil in Hempty as [E Hrem];
      pose proof (remaining_none_all_used _ _ Hrem c Hc) as Hu;
      first [ exact Hu
            | apply elem_of_union_l; exact Hu
            | apply elem_of_union_l, elem_of_union_l; exact Hu ]. }
  assert (Hsub : forall l r, l ++ r `sublist_of` input -> l `sublist_of` input).
  { intros l r H. etransitivity; [apply sublist_inserts_r; reflexivity|exact H]. }
  assert (Hsub' : forall l r, l ++ r `sublist_of` input -> r `sublist_of` input).
  { intros l r H. etransitivity; [apply sublist_inserts_l; reflexivity|exact H]. }
  unfold u6, u5, u4, u3, u2, u1 in Hused.
  rewrite !elem_of_union in Hused.
  destruct Hused as [[[[[[Hu|Hu]|Hu]|Hu]|Hu]|Hu]|Hu].
  - now apply elem_of_empty in Hu.
  - exists s_hook. cbn. apply elem_of_app. left. eapply Hfind; eauto.
  - exists s_credibility. cbn. apply elem_of_app. left. eapply Hfind; eauto.
  - exists s_work. cbn. apply elem_of_app. left.
    eapply Hfind; [|exact Hu]. eapply Hsub, Hw.
  - exists s_process. cbn. eapply Hfind; eauto.
  - exists s_hook. cbn. apply elem_of_app. right. eapply Hfind; eauto.
  - exists s_credibility. cbn. apply elem_of_app. right. eapply Hfind; eauto.
Qed.

(** X4: when the content ids of the input are distinct and one of the
    required sections hook, credibility or work ends up empty, every item
    of the input has been assigned to some section: a required section
    stays empty only when no item is left for it. *)
Theorem assignment_backfill_complete
    (input : list ScoredContent) (category : Category) :
  NoDup (scored_id <$> input) ->
  exists m, assignContentToSections input category = Some m /\
    forall s, s = s_hook \/ s = s_credibility \/ s = s_work ->
      assigned_to m s = [] ->
      forall c, c ∈ input -> exists s', c ∈ assigned_to m s'.
Proof.
  intros Hnd. destruct (assign_run input category) as (m & Hm & Hrun).
  exists m. split; [exact Hm|]. intros s Hs Hempty c Hc.
  rewrite Hrun in Hempty.
  destruct (run_backfill_complete input category s c Hnd Hs Hempty Hc) as [s' Hs'].
  exists s'. now rewrite Hrun.
Qed.

Lemma assignment_backfill_complete_witness :
  exists m, assignContentToSections Samples.three_items Tech = Some m /\
    forall s, s = s_hook \/ s = s_credibility \/ s = s_work ->
      assigned_to m s = [] ->
      forall c, c ∈ Samples.three_items -> exists s', c ∈ assigned_to m s'.
Proof.
  apply (assignment_backfill_complete Samples.three_items Tech).
  apply (bool_decide_unpack _). vm_compute. reflexivity.
Defined.

(** *** The best candidates *)









End TwoPassFacts.

(* ================================================================= *)
(** * Further properties of the composed portfolio *)

Module PortfolioMore.

Import Composition Spec TwoPass.
Open Scope M_scope.

Lemma bind_inv {A B : Type} (m : M A) (k : A -> M B) w r :
  bind m k w = Some r -> exists a w1, m w = Some (a, w1) /\ k a w1 = Some r.
Proof.
  unfold bind. destruct (m w) as [[a w1]|]; [|discriminate]. eauto.
Qed.

Section Environment.
Variable uuidv4 : nat -> string.
Variable toISOString : nat -> string.

(** The fields of the returned portfolio that are copied from the
    options or derived from the sections. *)
Lemma composePortfolio_fields input options w p w' :
  composePortfolio uuidv4 toISOString input options w = Some (p, w') ->
  user_id p = userId options /\
  category p = opt_category options /\
  navigation p = buildNavigation (portfolio_id p) (sections p) /\
  analytics p = buildAnalytics.
Proof.
  unfold composePortfolio. cbv zeta. intros H.
  apply bind_inv in H as (pid & w1 & _ & H).
  apply bind_inv in H as (m & w2 & _ & H).
  apply bind_inv in H as (secs & w3 & _ & H).
  apply bind_inv in H as (created & w4 & _ & H).
  apply bind_inv in H as (updated & w5 & _ & H).
  unfold ret in H. injection H as <- _. cbn. auto.
Qed.

(** *** Number of blocks *)

Lemma built_from_length m category sid ord sec :
  built_from m category sid ord sec ->
  section_id sec = sid /\ length (blocks sec) = length (assigned_to m sid).
Proof.
  intros (Hid & _ & HF). split; [exact Hid|].
  symmetry. eapply Forall2_length, HF.
Qed.

(** The numbers of blocks of the sections of the returned portfolio. *)
Lemma shape_sizes
    (input : list ScoredContent) (options : ComposeOptions) (w : World) :
  exists p w' nh nc nk np,
    composePortfolio uuidv4 toISOString input options w = Some (p, w') /\
    (fun sec => length (blocks sec)) <$> sections p = [nh; nc; nk] ++ np ++ [1] /\
    nh <= 2 /\ nc <= 3 /\ nk <= 6 /\
    (np = [] \/ exists n, np = [n] /\ n <= 2).
Proof.
  destruct (ComposeFacts.composePortfolio_shape uuidv4 toISOString input options w)
    as (p & w' & m & h & c & k & pr & a & Hp & Hm & Hsecs & Hh & Hc & Hk & Hpr & Ha).
  destruct (TwoPassFacts.assign_run input (opt_category options)) as (m' & Hm' & Hrun).
  assert (m' = m) as -> by congruence.
  assert (Hcap : forall s, length (assigned_to m s) <= capacity s).
  { intros s. rewrite Hrun. apply TwoPassFacts.run_capacity. }
  apply built_from_length in Hh as [_ Hh], Hc as [_ Hc], Hk as [_ Hk].
  destruct Ha as (_ & _ & b & Hb & _).
  exists p, w', (length (blocks h)), (length (blocks c)), (length (blocks k)),
    ((fun sec => length (blocks sec)) <$> pr).
  split; [exact Hp|]. split.
  { rewrite Hsecs, !fmap_app. cbn [fmap list_fmap]. now rewrite Hb. }
  rewrite Hh, Hc, Hk.
  split; [apply (Hcap s_hook)|]. split; [apply (Hcap s_credibility)|].
  split; [apply (Hcap s_work)|].
  destruct Hpr as [[-> _]|(x & -> & Hx & _)]; [now left|right].
  apply built_from_length in Hx as [_ Hx].
  eexists. split; [reflexivity|]. rewrite Hx. apply (Hcap s_process).
Qed.

(** X5: in the portfolio that [composePortfolio] returns every section
    other than action has one block per assigned item, no section has
    more blocks than the [maxBlocks] of its configuration, and the
    document has at most 14 blocks in its sections. *)
Theorem portfolio_block_counts
    (input : list ScoredContent) (options : ComposeOptions) (w : World) :
  exists p w' m,
    composePortfolio uuidv4 toISOString input options w = Some (p, w') /\
    assignContentToSections input (opt_category options) = Some m /\
    Forall (fun sec =>
              length (blocks sec) <= capacity (section_id sec) /\
              (section_id sec <> s_action ->
               length (blocks sec) = length (assigned_to m (section_id sec))))
           (sections p) /\
    sum_list ((fun sec => length (blocks sec)) <$> sections p) <= 14.
Proof.
  destruct (ComposeFacts.composePortfolio_shape uuidv4 toISOString input options w)
    as (p & w' & m & h & c & k & pr & a & Hp & Hm & Hsecs & Hh & Hc & Hk & Hpr & Ha).
  destruct (TwoPassFacts.assign_run input (opt_category options)) as (m' & Hm' & Hrun).
  assert (m' = m) as -> by congruence.
  assert (Hcap : forall s, length (assigned_to m s) <= capacity s).
  { intros s. rewrite Hrun. apply TwoPassFacts.run_capacity. }
  apply built_from_length in Hh as [Hh1 Hh2], Hc as [Hc1 Hc2], Hk as [Hk1 Hk2].
  destruct Ha as (Ha1 & _ & b & Hb & _).
  pose proof (Hcap s_hook) as Ch. pose proof (Hcap s_credibility) as Cc.
  pose proof (Hcap s_work) as Ck. pose proof (Hcap s_process) as Cp.
  change (capacity s_hook) with 2 in Ch. change (capacity s_credibility) with 3 in Cc.
  change (capacity s_work) with 6 in Ck. change (capacity s_process) with 2 in Cp.
  exists p, w', m. split; [exact Hp|]. split; [exact Hm|]. rewrite Hsecs.
  destruct Hpr as [[-> _]|(x & -> & Hx & _)].
  - cbn [app]. split.
    + rewrite !Forall_cons, Forall_nil, Hh1, Hc1, Hk1, Ha1, Hb, Hh2, Hc2, Hk2.
      change (capacity s_action) with 1. cbn [length].
      repeat split; try apply Hcap; try lia; done.
    + cbn. rewrite Hh2, Hc2, Hk2, Hb. cbn. lia.
  - apply built_from_length in Hx as [Hx1 Hx2]. cbn [app]. split.
    + rewrite !Forall_cons, Forall_nil, Hh1, Hc1, Hk1, Hx1, Ha1, Hb, Hh2, Hc2, Hk2,
        Hx2.
      change (capacity s_action) with 1. cbn [length].
      repeat split; try apply Hcap; try lia; done.
    + cbn. rewrite Hh2, Hc2, Hk2, Hx2, Hb. cbn. lia.
Qed.

(** *** Navigation *)

Lemma nav_fold_items secs :
  forall acc,
    snd (foldl Nav.nav_step acc secs) =
    snd acc ++
    ((fun s => {| nav_label := fst (sectionLabels (section_id s));
                  target_section := section_id s;
                  icon := snd (sectionLabels (section_id s)) |}) <$> secs).
Proof.
  induction secs as [|x secs IH]; intros acc; cbn [foldl fmap list_fmap].
  - now rewrite app_nil_r.
  - rewrite IH. cbn. now rewrite <- app_assoc.
Qed.

Lemma nav_fold_anchors secs :
  forall acc k,
    fst (foldl Nav.nav_step acc secs) !! k =
    if decide (k ∈ Nav.anchor_keys secs) then Some ("section_" ++ k)%string
    else fst acc !! k.
Proof.
  induction secs as [|x secs IH]; intros acc k; cbn [foldl].
  - destruct (decide _) as [H|_]; [|reflexivity]. now apply elem_of_nil in H.
  - rewrite IH. unfold Nav.anchor_keys. cbn [fmap list_fmap Nav.nav_step fst].
    fold (Nav.anchor_keys secs).
    destruct (decide (k ∈ Nav.anchor_keys secs)) as [Hin|Hout].
    + rewrite decide_True by (now right). reflexivity.
    + destruct (decide (SectionId_str (section_id x) = k)) as [<-|Hne].
      * rewrite decide_True by (now left). apply lookup_insert_eq.
      * rewrite lookup_insert_ne by done.
        rewrite decide_False; [reflexivity|].
        intros [?|?]%elem_of_cons; congruence.
Qed.

Lemma buildNavigation_fold pid secs :
  anchors (buildNavigation pid secs) = fst (foldl Nav.nav_step (∅, []) secs) /\
  items (quick_nav (buildNavigation pid secs)) =
    snd (foldl Nav.nav_step (∅, []) secs).
Proof.
  unfold buildNavigation.
  change (foldl _ (∅, []) secs) with (foldl Nav.nav_step (∅, []) secs).
  destruct (foldl Nav.nav_step (∅, []) secs) as [a q]. now split.
Qed.

(** X6: the navigation of the returned portfolio lists exactly its
    sections: one quick-nav item per section, in the order of the
    sections, and an anchor [section_<id>] under the id of each section
    and under no other key. *)
Theorem navigation_matches_sections
    (input : list ScoredContent) (options : ComposeOptions) (w : World) :
  exists p w',
    composePortfolio uuidv4 toISOString input options w = Some (p, w') /\
    target_section <$> items (quick_nav (navigation p)) =
      section_id <$> sections p /\
    forall k : string,
      anchors (navigation p) !! k =
      if decide (k ∈ Nav.anchor_keys (sections p))
      then Some ("section_" ++ k)%string else None.
Proof.
  destruct (ComposeFacts.composePortfolio_shape uuidv4 toISOString input options w)
    as (p & w' & _ & _ & _ & _ & _ & _ & Hp & _).
  destruct (composePortfolio_fields _ _ _ _ _ Hp) as (_ & _ & Hnav & _).
  destruct (buildNavigation_fold (portfolio_id p) (sections p)) as [Ha Hq].
  exists p, w'. split; [exact Hp|]. rewrite Hnav, Ha, Hq. split.
  - rewrite nav_fold_items. cbn [snd app]. rewrite <- list_fmap_compose.
    reflexivity.
  - intros k. rewrite nav_fold_anchors. reflexivity.
Qed.

End Environment.

End PortfolioMore.

(* ================================================================= *)
(** * Identifiers of the blocks *)

Module IdFacts.

Import Composition Spec Ids.
Open Scope M_scope.

Lemma fresh_ids_app uuidv4 a n1 n2 :
  fresh_ids uuidv4 a (n1 + n2) =
  fresh_ids uuidv4 a n1 ++ fresh_ids uuidv4 (a + n1) n2.
Proof. unfold fresh_ids. now rewrite seq_app, fmap_app. Qed.

Section Environment.
Variable uuidv4 : nat -> string.
Variable toISOString : nat -> string.

Lemma draws_none w : draws uuidv4 w w [].
Proof. exists 0. split; [lia|reflexivity]. Qed.

Lemma draws_seq w1 w2 w3 ids1 ids2 :
  draws uuidv4 w1 w2 ids1 -> draws uuidv4 w2 w3 ids2 -> draws uuidv4 w1 w3 (ids1 ++ ids2).
Proof.
  intros (n1 & H1 & ->) (n2 & H2 & ->). exists (n1 + n2). split; [lia|].
  rewrite fresh_ids_app. now rewrite H1.
Qed.

Lemma buildBlock_ids c bt sid w b w' :
  BlockBuilder.buildBlock uuidv4 toISOString c bt sid w = Some (b, w') ->
  draws uuidv4 w w' (block_ids b).
Proof.
  unfold BlockBuilder.buildBlock, bind, Helpers.generateBlockId, Helpers.generateId.
  destruct bt; cbn; intros [= <- <-];
    first [ exists 1; split; [cbn; lia|reflexivity]
          | exists 2; split; [cbn; lia|reflexivity] ].
Qed.

Lemma build_blocks_ids sid category contents :
  forall w bs w',
    mapM (fun c =>
            let! blockType := assert_defined (selectBlockType c sid category) in
            BlockBuilder.buildBlock uuidv4 toISOString c blockType sid)
         contents w = Some (bs, w') ->
    draws uuidv4 w w' (flat_map block_ids bs).
Proof.
  induction contents as [|c contents IH]; intros w bs w' H; cbn [mapM] in H.
  - injection H as <- <-. apply draws_none.
  - apply PortfolioMore.bind_inv in H as (b & w1 & Hb & H).
    apply PortfolioMore.bind_inv in H as (bs' & w2 & Hbs & H).
    injection H as <- <-. cbn [flat_map].
    apply PortfolioMore.bind_inv in Hb as (bt & w0 & Hbt & Hb).
    unfold assert_defined in Hbt.
    destruct (selectBlockType c sid category); [|discriminate].
    injection Hbt as <- <-.
    eapply draws_seq; [eapply buildBlock_ids, Hb | eapply IH, Hbs].
Qed.

Lemma buildSection_ids sid contents category w sec w' :
  buildSection uuidv4 toISOString sid contents category w = Some (sec, w') ->
  draws uuidv4 w w' (section_block_ids sec).
Proof.
  unfold buildSection. intros H.
  apply PortfolioMore.bind_inv in H as (bs & w1 & Hbs & H).
  apply PortfolioMore.bind_inv in H as (cfg & w2 & Hcfg & H).
  unfold assert_defined in Hcfg. destruct (find_config sid); [|discriminate].
  injection Hcfg as <- <-. injection H as <- <-.
  unfold section_block_ids. cbn [blocks]. eapply build_blocks_ids, Hbs.
Qed.

Lemma buildCTASection_ids userId title w sec w' :
  buildCTASection uuidv4 userId title w = Some (sec, w') ->
  draws uuidv4 w w' (section_block_ids sec).
Proof.
  unfold buildCTASection, bind, Helpers.generateBlockId, Helpers.generateId.
  cbn. intros [= <- <-]. exists 1. split; [cbn; lia|reflexivity].
Qed.

Lemma compose_step_ids assigned userId title category secs cfg w secs' w' :
  compose_step uuidv4 toISOString assigned userId title category secs cfg w =
    Some (secs', w') ->
  exists ids, draws uuidv4 w w' ids /\
    flat_map section_block_ids secs' = flat_map section_block_ids secs ++ ids.
Proof.
  unfold compose_step. destruct (eqb (id cfg) s_action).
  - intros H. apply PortfolioMore.bind_inv in H as (cta & w1 & Hcta & H).
    injection H as <- <-. exists (section_block_ids cta).
    split; [eapply buildCTASection_ids, Hcta|].
    rewrite flat_map_app. cbn. now rewrite app_nil_r.
  - intros H. apply PortfolioMore.bind_inv in H as (l & w1 & Hl & H).
    unfold assert_defined in Hl. destruct (assigned !! id cfg); [|discriminate].
    injection Hl as <- <-.
    destruct (_ && _)%bool.
    { injection H as <- <-. exists []. split; [apply draws_none|].
      now rewrite app_nil_r. }
    destruct (_ || _)%bool.
    + apply PortfolioMore.bind_inv in H as (sec & w2 & Hsec & H).
      injection H as <- <-. exists (section_block_ids sec).
      split; [eapply buildSection_ids, Hsec|].
      rewrite flat_map_app. cbn. now rewrite app_nil_r.
    + injection H as <- <-. exists []. split; [apply draws_none|].
      now rewrite app_nil_r.
Qed.

Lemma compose_loop_ids assigned userId title category cfgs :
  forall secs w secs' w',
    foldM (compose_step uuidv4 toISOString assigned userId title category)
          secs cfgs w = Some (secs', w') ->
    exists ids, draws uuidv4 w w' ids /\
      flat_map section_block_ids secs' = flat_map section_block_ids secs ++ ids.
Proof.
  induction cfgs as [|cfg cfgs IH]; intros secs w secs' w' H; cbn [foldM] in H.
  - injection H as <- <-. exists []. split; [apply draws_none|].
    now rewrite app_nil_r.
  - apply PortfolioMore.bind_inv in H as (secs1 & w1 & H1 & H).
    apply compose_step_ids in H1 as (ids1 & Hd1 & E1).
    apply IH in H as (ids2 & Hd2 & E2).
    exists (ids1 ++ ids2). split; [eapply draws_seq; eauto|].
    now rewrite E2, E1, app_assoc.
Qed.

(** The portfolio id comes from the first draw, the block ids from the
    draws that follow. *)
Lemma composePortfolio_ids input options w p w' :
  composePortfolio uuidv4 toISOString input options w = Some (p, w') ->
  exists n,
    uuids_drawn w' = S (uuids_drawn w + n) /\
    portfolio_id p = ("p_" ++ short_id (uuidv4 (uuids_drawn w)))%string /\
    Permutation (portfolio_block_ids p)
                (fresh_ids uuidv4 (S (uuids_drawn w)) n).
Proof.
  unfold composePortfolio. cbv zeta. intros H.
  apply PortfolioMore.bind_inv in H as (pid & w1 & Hpid & H).
  apply PortfolioMore.bind_inv in H as (m & w2 & Hm & H).
  apply PortfolioMore.bind_inv in H as (secs & w3 & Hsecs & H).
  apply PortfolioMore.bind_inv in H as (created & w4 & Hc & H).
  apply PortfolioMore.bind_inv in H as (updated & w5 & Hu & H).
  unfold ret in H. injection H as <- <-.
  unfold Helpers.generatePortfolioId, Helpers.generateId in Hpid.
  injection Hpid as <- <-.
  unfold assert_defined in Hm.
  destruct (assignContentToSections _ _); [|discriminate]. injection Hm as <- <-.
  unfold Helpers.now in Hc, Hu. injection Hc as <- <-. injection Hu as <- <-.
  apply compose_loop_ids in Hsecs as (ids & (n & Hn & ->) & E).
  cbn in Hn, E |- *. exists n. split; [lia|]. split; [reflexivity|].
  unfold portfolio_block_ids. cbn [sections].
  rewrite <- E. apply Permutation_flat_map, SortFacts.sort_perm.
Qed.

End Environment.

Lemma prefixed_distinct (x : string) (l : list string) :
  NoDup (x :: l) ->
  NoDup (("p_" ++ x)%string :: ((fun s => ("b_" ++ s)%string) <$> l)).
Proof.
  intros Hnd. apply NoDup_cons in Hnd as [_ Hnd]. apply NoDup_cons. split.
  - intros (s & Hs & _)%list_elem_of_fmap. discriminate Hs.
  - apply NoDup_fmap_2; [|exact Hnd]. intros s1 s2 H. cbn in H. now injection H.
Qed.

(** X7: when the UUIDs drawn during a composition are distinct in their
    first twelve characters after the dashes are removed, the portfolio
    id and the ids of all blocks of the returned portfolio, nested
    blocks included, are pairwise distinct. *)
Theorem block_ids_distinct
    (uuidv4 toISOString : nat -> string) (input : list ScoredContent)
    (options : ComposeOptions) (w : World) (p : Portfolio) (w' : World) :
  composePortfolio uuidv4 toISOString input options w = Some (p, w') ->
  NoDup (drawn uuidv4 w w') ->
  NoDup (portfolio_id p :: portfolio_block_ids p).
Proof.
  intros Hp Hnd.
  destruct (composePortfolio_ids uuidv4 toISOString input options w p w' Hp)
    as (n & Hn & -> & Hperm).
  rewrite Hperm. unfold drawn in Hnd. rewrite Hn in Hnd.
  replace (S (uuids_drawn w + n) - uuids_drawn w) with (S n) in Hnd by lia.
  cbn [seq fmap list_fmap] in Hnd. unfold fresh_ids.
  rewrite (list_fmap_compose (fun k => short_id (uuidv4 k))
             (fun s => ("b_" ++ s)%string)).
  now apply prefixed_distinct.
Qed.

Lemma block_ids_distinct_witness :
  exists p w',
    composePortfolio Fixtures.numbered_uuid Samples.fixed_iso Samples.three_items
      Samples.options Samples.world0 = Some (p, w') /\
    NoDup (portfolio_id p :: portfolio_block_ids p).
Proof.
  eexists _, _. split; [vm_compute; reflexivity|].
  eapply (block_ids_distinct Fixtures.numbered_uuid Samples.fixed_iso
            Samples.three_items Samples.options Samples.world0).
  - vm_compute. reflexivity.
  - apply (bool_decide_unpack _). vm_compute. reflexivity.
Defined.

End IdFacts.

(* ================================================================= *)
(** * Further properties of the scores *)

Module ScoringMore.

Import Js Scoring JsFacts.
Open Scope Q_scope.

(** *** The final score as a rounded weighted average *)





(** X9: the final score is a whole number of hundredths between 0 and
    100. *)
Theorem final_score_hundredths
    (Date_parse : string -> option Z) (now : Z) (c : NormalizedContent)
    (category : Category) :
  exists k : Z,
    (0 <= k <= 100)%Z /\
    final_score (scoreContent Date_parse now c category) = inject_Z k / 100.
Proof.
  cbn [scoreContent final_score]. eexists. split; [|reflexivity].
  match goal with |- (0 <= round (?x * 100) <= 100)%Z => set (a := x) end.
  assert (Ha : unit_interval a).
  { apply (ScoringFacts.weighted_unit category
             {| relevance := scoreRelevance c category;
                quality := scoreQuality c;
                credibility := scoreCredibility c;
                engagement := scoreEngagement c;
                freshness := scoreFreshness Date_parse now c |});
      cbn [relevance quality credibility engagement freshness];
      first [ apply ScoringFacts.scoreRelevance_unit
            | apply ScoringFacts.scoreQuality_unit
            | apply ScoringFacts.clamp_unit
            | apply ScoringFacts.scoreFreshness_unit ]. }
  destruct Ha as [H0 H1]. unfold round.
  pose proof (Qfloor_le (a * 100 + 0.5)) as Hle.
  pose proof (Qlt_floor (a * 100 + 0.5)) as Hlt.
  set (k := Qfloor (a * 100 + 0.5)) in *.
  split.
  - apply Z.lt_succ_r. rewrite Zlt_Qlt. unfold Z.succ.
    change (inject_Z 0) with 0. lra.
  - apply Z.lt_succ_r. rewrite Zlt_Qlt.
    change (inject_Z (Z.succ 100)) with 101. lra.
Qed.

(** *** Quality *)

(** X10: the quality sub-score never falls below its base of 0.5. *)
Theorem scoreQuality_at_least_base (c : NormalizedContent) :
  0.5 <= scoreQuality c <= 1.
Proof.
  split; [|apply ScoringFacts.scoreQuality_unit].
  unfold scoreQuality. cbv zeta. apply Q.min_glb; [|lra].
  repeat first
    [ apply Qle_refl
    | apply ScoringFacts.bump_ge; [lra|]
    | match goal with
      | |- _ <= (if ?b then _ else _) => destruct b
      | |- 0.5 <= _ + 0.15 =>
          apply Qle_trans with (y := 0.5 + 0.15); [lra|];
          apply Qplus_le_l
      end ].
Qed.

(** *** Freshness *)

Lemma freshness_step_antitone (a b : Q) :
  a <= b ->
  (if lt b 30 then 1.0 else if lt b 90 then 0.8 else if lt b 365 then 0.6
   else if lt b 730 then 0.4 else 0.2) <=
  (if lt a 30 then 1.0 else if lt a 90 then 0.8 else if lt a 365 then 0.6
   else if lt a 730 then 0.4 else 0.2).
Proof.
  intros Hab.
  repeat match goal with
         | |- context [lt ?x ?y] =>
             let E := fresh "E" in
             destruct (lt x y) eqn:E;
             [apply lt_true in E | apply lt_false in E]
         end; lra.
Qed.

(** X11: content never gets fresher: for one item, a later reading of
    the clock gives a freshness sub-score that is not larger; an item
    whose [created_at] does not parse gets 0.2 at every time. *)
Theorem scoreFreshness_antitone
    (Date_parse : string -> option Z) (c : NormalizedContent) (now1 now2 : Z) :
  (now1 <= now2)%Z ->
  scoreFreshness Date_parse now2 c <= scoreFreshness Date_parse now1 c /\
  (Date_parse (created_at c) = None ->
   scoreFreshness Date_parse now1 c = 0.2).
Proof.
  intros Hle. unfold scoreFreshness, ageInDays.
  destruct (Date_parse (created_at c)) as [t|]; [|split; [lra|reflexivity]].
  split; [|discriminate].
  apply freshness_step_antitone.
  apply Qmult_le_compat_r.
  - rewrite <- Zle_Qle. lia.
  - apply Qinv_le_0_compat. now vm_compute.
Qed.

Lemma scoreFreshness_antitone_witness :
  scoreFreshness Samples.epoch_parse (40 * ms_per_day) Samples.github_150
    <= scoreFreshness Samples.epoch_parse 0 Samples.github_150 /\
  (Samples.epoch_parse (created_at Samples.github_150) = None ->
   scoreFreshness Samples.epoch_parse 0 Samples.github_150 = 0.2).
Proof.
  apply (scoreFreshness_antitone Samples.epoch_parse Samples.github_150
           0 (40 * ms_per_day)).
  now vm_compute.
Defined.

(** *** Engagement *)


End ScoringMore.

(* ================================================================= *)
(** * The section filters on scored content *)

Module FilterFacts.

Import Js Scoring Composition JsFacts.
Open Scope Q_scope.

(** Evaluate the comparisons of closed enumeration values. *)
Ltac eval_closed :=
  repeat match goal with
         | |- context [@eqb ?A ?H ?a ?b] =>
             is_constructor a; is_constructor b;
             let v := eval vm_compute in (@eqb A H a b) in
             change (@eqb A H a b) with v
         | |- context [@includes ?A ?H ?l ?a] =>
             is_constructor a;
             let v := eval vm_compute in (@includes A H l a) in
             change (@includes A H l a) with v
         end.

(** The credibility of an item that is neither a pdf nor an external
    link nor from GitHub exceeds 0.5 only through YouTube views. *)
Lemma credibility_fallback (c : NormalizedContent) :
  type c <> ct_pdf -> type c <> ct_external_link -> source c <> src_github ->
  gt (scoreCredibility c) 0.5 =
  (eqb (source c) src_youtube
   && is_num (chain (extracted_data c) view_count)
   && gt (num (chain (extracted_data c) view_count)) 1000)%bool.
Proof.
  intros Hpdf Hlink Hgit. unfold scoreCredibility. cbv zeta.
  set (views := chain (extracted_data c) view_count).
  set (stars := chain (extracted_data c) stars).
  assert (H1 : gt (num views) 10000 = true -> gt (num views) 1000 = true).
  { rewrite !gt_true. lra. }
  assert (H2 : gt (num views) 100000 = true -> gt (num views) 1000 = true).
  { rewrite !gt_true. lra. }
  revert H1 H2.
  generalize (gt (num views) 1000) (gt (num views) 10000) (gt (num views) 100000)
             (is_num views) (is_num stars)
             (gt (num stars) 10) (gt (num stars) 100) (gt (num stars) 1000).
  intros v1 v2 v3 vt st s1 s2 s3 H1 H2.
  destruct (type c); try congruence;
    destruct (source c); try congruence; eval_closed; cbv iota; unfold bump;
    destruct vt, v1, v2, v3;
    try (specialize (H1 eq_refl)); try (specialize (H2 eq_refl));
    try discriminate; reflexivity.
Qed.

(** X12: on a scored item the score tests at the end of two section
    filters decide little: the credibility filter admits pdf items,
    external links to social profiles, GitHub items, and beyond these
    only YouTube items with more than 1000 views; the work filter is
    decided by type and source alone and never consults the quality
    score. *)
Theorem filters_on_scored_content
    (Date_parse : string -> option Z) (now : Z) (c : NormalizedContent)
    (category category' : Category) :
  let s := scoreContent Date_parse now c category in
  let social := [src_github; src_linkedin; src_instagram; src_twitter; src_tiktok] in
  credibility_filter s category' =
    (eqb (type c) ct_pdf
     || (if eqb (type c) ct_external_link then includes social (source c)
         else eqb (source c) src_github
              || (eqb (source c) src_youtube
                  && is_num (chain (extracted_data c) view_count)
                  && gt (num (chain (extracted_data c) view_count)) 1000)))%bool /\
  work_filter s category' =
    match type c with
    | ct_image | ct_video | ct_code => true
    | ct_external_link => negb (includes social (source c))
    | ct_text | ct_pdf => false
    end.
Proof.
  cbv zeta. unfold credibility_filter, work_filter.
  cbn [scoreContent normalized scores credibility quality]. split.
  - destruct (eqb (type c) ct_pdf) eqn:Epdf; [reflexivity|].
    destruct (eqb (type c) ct_external_link) eqn:Elink; [reflexivity|].
    destruct (eqb (source c) src_github) eqn:Egit; [reflexivity|].
    cbn [orb]. apply credibility_fallback.
    + intros H. rewrite H in Epdf. discriminate Epdf.
    + intros H. rewrite H in Elink. discriminate Elink.
    + intros H. rewrite H in Egit. discriminate Egit.
  - destruct (type c); eval_closed; reflexivity.
Qed.

End FilterFacts.

(* ================================================================= *)
(** * Independence of the generated identifiers and of the clock *)

Module EnvFacts.

Import Composition Spec Erase.
Open Scope M_scope.

Lemma sort_insert_fmap {A B : Type} (f : A -> B)
    (cmpA : A -> A -> Q) (cmpB : B -> B -> Q) :
  (forall a b, cmpB (f a) (f b) = cmpA a b) ->
  forall x l,
    f <$> Js.sort_insert cmpA x l = Js.sort_insert cmpB (f x) (f <$> l).
Proof.
  intros Hcmp x l. induction l as [|y r IH]; cbn; [reflexivity|].
  rewrite Hcmp. destruct (Js.gt (cmpA x y) 0); cbn; [now rewrite IH|reflexivity].
Qed.

Lemma sort_fmap {A B : Type} (f : A -> B)
    (cmpA : A -> A -> Q) (cmpB : B -> B -> Q) :
  (forall a b, cmpB (f a) (f b) = cmpA a b) ->
  forall l, f <$> Js.sort cmpA l = Js.sort cmpB (f <$> l).
Proof.
  intros Hcmp l. induction l as [|x l IH]; cbn; [reflexivity|].
  fold (Js.sort cmpA l). fold (Js.sort cmpB (f <$> l)).
  now rewrite (sort_insert_fmap f cmpA cmpB Hcmp), IH.
Qed.

(** The navigation depends on the sections through their ids only. *)
Lemma erase_navigation_ids pid1 pid2 (secs1 secs2 : list PSection) :
  section_id <$> secs1 = section_id <$> secs2 ->
  erase_navigation (buildNavigation pid1 secs1) =
  erase_navigation (buildNavigation pid2 secs2).
Proof.
  intros Hids.
  destruct (PortfolioMore.buildNavigation_fold pid1 secs1) as [Ha1 Hq1].
  destruct (PortfolioMore.buildNavigation_fold pid2 secs2) as [Ha2 Hq2].
  assert (Ha : anchors (buildNavigation pid1 secs1) =
               anchors (buildNavigation pid2 secs2)).
  { rewrite Ha1, Ha2. apply map_eq. intros k.
    rewrite !PortfolioMore.nav_fold_anchors. unfold Nav.anchor_keys.
    rewrite !(list_fmap_compose section_id SectionId_str), Hids. reflexivity. }
  assert (Hq : items (quick_nav (buildNavigation pid1 secs1)) =
               items (quick_nav (buildNavigation pid2 secs2))).
  { rewrite Hq1, Hq2, !PortfolioMore.nav_fold_items. cbn [snd app].
    rewrite !(list_fmap_compose section_id
                (fun s => {| nav_label := fst (sectionLabels s);
                             target_section := s;
                             icon := snd (sectionLabels s) |})).
    now rewrite Hids. }
  unfold erase_navigation. rewrite Ha.
  unfold buildNavigation in Hq |- *.
  destruct (foldl _ _ secs1) as [a1 q1], (foldl _ _ secs2) as [a2 q2].
  cbn in Hq |- *. now rewrite Hq.
Qed.

Section TwoEnvironments.
Variables uuid1 uuid2 : nat -> string.
Variables iso1 iso2 : nat -> string.

Lemma buildBlock_env c bt sid w1 w2 b1 b2 w1' w2' :
  BlockBuilder.buildBlock uuid1 iso1 c bt sid w1 = Some (b1, w1') ->
  BlockBuilder.buildBlock uuid2 iso2 c bt sid w2 = Some (b2, w2') ->
  erase_block b1 = erase_block b2.
Proof.
  unfold BlockBuilder.buildBlock, bind, Helpers.generateBlockId, Helpers.generateId.
  destruct bt; cbn; intros [= <- <-] [= <- <-]; reflexivity.
Qed.

Lemma build_blocks_env sid category contents :
  forall w1 w2 bs1 bs2 w1' w2',
    mapM (fun c =>
            let! blockType := assert_defined (selectBlockType c sid category) in
            BlockBuilder.buildBlock uuid1 iso1 c blockType sid)
         contents w1 = Some (bs1, w1') ->
    mapM (fun c =>
            let! blockType := assert_defined (selectBlockType c sid category) in
            BlockBuilder.buildBlock uuid2 iso2 c blockType sid)
         contents w2 = Some (bs2, w2') ->
    erase_block <$> bs1 = erase_block <$> bs2.
Proof.
  induction contents as [|c contents IH]; intros w1 w2 bs1 bs2 w1' w2' H1 H2;
    cbn [mapM] in H1, H2.
  - injection H1 as <- <-. injection H2 as <- <-. reflexivity.
  - apply PortfolioMore.bind_inv in H1 as (b1 & x1 & Hb1 & H1).
    apply PortfolioMore.bind_inv in H1 as (r1 & y1 & Hr1 & H1).
    apply PortfolioMore.bind_inv in H2 as (b2 & x2 & Hb2 & H2).
    apply PortfolioMore.bind_inv in H2 as (r2 & y2 & Hr2 & H2).
    injection H1 as <- <-. injection H2 as <- <-.
    apply PortfolioMore.bind_inv in Hb1 as (bt1 & z1 & Hbt1 & Hb1).
    apply PortfolioMore.bind_inv in Hb2 as (bt2 & z2 & Hbt2 & Hb2).
    unfold assert_defined in Hbt1, Hbt2.
    destruct (selectBlockType c sid category); [|discriminate].
    injection Hbt1 as <- <-. injection Hbt2 as <- <-.
    cbn [fmap list_fmap]. f_equal.
    + eapply buildBlock_env; eauto.
    + eapply IH; eauto.
Qed.

Lemma buildSection_env sid contents category w1 w2 s1 s2 w1' w2' :
  buildSection uuid1 iso1 sid contents category w1 = Some (s1, w1') ->
  buildSection uuid2 iso2 sid contents category w2 = Some (s2, w2') ->
  erase_section s1 = erase_section s2.
Proof.
  unfold buildSection. intros H1 H2.
  apply PortfolioMore.bind_inv in H1 as (bs1 & x1 & Hbs1 & H1).
  apply PortfolioMore.bind_inv in H1 as (cfg1 & y1 & Hc1 & H1).
  apply PortfolioMore.bind_inv in H2 as (bs2 & x2 & Hbs2 & H2).
  apply PortfolioMore.bind_inv in H2 as (cfg2 & y2 & Hc2 & H2).
  unfold assert_defined in Hc1, Hc2. destruct (find_config sid); [|discriminate].
  injection Hc1 as <- <-. injection Hc2 as <- <-.
  injection H1 as <- <-. injection H2 as <- <-.
  unfold erase_section. cbn. f_equal. eapply build_blocks_env; eauto.
Qed.

Lemma buildCTASection_env userId title w1 w2 s1 s2 w1' w2' :
  buildCTASection uuid1 userId title w1 = Some (s1, w1') ->
  buildCTASection uuid2 userId title w2 = Some (s2, w2') ->
  erase_section s1 = erase_section s2.
Proof.
  unfold buildCTASection, bind, Helpers.generateBlockId, Helpers.generateId.
  cbn. intros [= <- <-] [= <- <-]. reflexivity.
Qed.

Lemma compose_step_env assigned userId title category cfg
    secs1 secs2 w1 w2 r1 r2 w1' w2' :
  erase_section <$> secs1 = erase_section <$> secs2 ->
  compose_step uuid1 iso1 assigned userId title category secs1 cfg w1 =
    Some (r1, w1') ->
  compose_step uuid2 iso2 assigned userId title category secs2 cfg w2 =
    Some (r2, w2') ->
  erase_section <$> r1 = erase_section <$> r2.
Proof.
  intros Hsecs. unfold compose_step. destruct (eqb (id cfg) s_action).
  - intros H1 H2.
    apply PortfolioMore.bind_inv in H1 as (c1 & x1 & Hc1 & H1).
    apply PortfolioMore.bind_inv in H2 as (c2 & x2 & Hc2 & H2).
    injection H1 as <- <-. injection H2 as <- <-.
    rewrite !fmap_app, Hsecs. cbn. do 2 f_equal.
    eapply buildCTASection_env; eauto.
  - intros H1 H2.
    apply PortfolioMore.bind_inv in H1 as (l1 & x1 & Hl1 & H1).
    apply PortfolioMore.bind_inv in H2 as (l2 & x2 & Hl2 & H2).
    unfold assert_defined in Hl1, Hl2.
    destruct (assigned !! id cfg); [|discriminate].
    injection Hl1 as <- <-. injection Hl2 as <- <-.
    destruct (_ && _)%bool.
    { injection H1 as <- <-. injection H2 as <- <-. exact Hsecs. }
    destruct (_ || _)%bool.
    + apply PortfolioMore.bind_inv in H1 as (s1 & y1 & Hs1 & H1).
      apply PortfolioMore.bind_inv in H2 as (s2 & y2 & Hs2 & H2).
      injection H1 as <- <-. injection H2 as <- <-.
      rewrite !fmap_app, Hsecs. cbn. do 2 f_equal.
      eapply buildSection_env; eauto.
    + injection H1 as <- <-. injection H2 as <- <-. exact Hsecs.
Qed.

Lemma compose_loop_env assigned userId title category cfgs :
  forall secs1 secs2 w1 w2 r1 r2 w1' w2',
    erase_section <$> secs1 = erase_section <$> secs2 ->
    foldM (compose_step uuid1 iso1 assigned userId title category)
          secs1 cfgs w1 = Some (r1, w1') ->
    foldM (compose_step uuid2 iso2 assigned userId title category)
          secs2 cfgs w2 = Some (r2, w2') ->
    erase_section <$> r1 = erase_section <$> r2.
Proof.
  induction cfgs as [|cfg cfgs IH];
    intros secs1 secs2 w1 w2 r1 r2 w1' w2' Hsecs H1 H2; cbn [foldM] in H1, H2.
  - injection H1 as <- <-. injection H2 as <- <-. exact Hsecs.
  - apply PortfolioMore.bind_inv in H1 as (t1 & x1 & Ht1 & H1).
    apply PortfolioMore.bind_inv in H2 as (t2 & x2 & Ht2 & H2).
    eapply IH; [|exact H1|exact H2].
    eapply compose_step_env; eauto.
Qed.

Lemma composePortfolio_env input options w1 w2 p1 p2 w1' w2' :
  composePortfolio uuid1 iso1 input options w1 = Some (p1, w1') ->
  composePortfolio uuid2 iso2 input options w2 = Some (p2, w2') ->
  erase_portfolio p1 = erase_portfolio p2.
Proof.
  unfold composePortfolio. cbv zeta. intros H1 H2.
  apply PortfolioMore.bind_inv in H1 as (pid1 & a1 & _ & H1).
  apply PortfolioMore.bind_inv in H1 as (m1 & b1 & Hm1 & H1).
  apply PortfolioMore.bind_inv in H1 as (secs1 & c1 & Hs1 & H1).
  apply PortfolioMore.bind_inv in H1 as (cr1 & d1 & _ & H1).
  apply PortfolioMore.bind_inv in H1 as (up1 & e1 & _ & H1).
  apply PortfolioMore.bind_inv in H2 as (pid2 & a2 & _ & H2).
  apply PortfolioMore.bind_inv in H2 as (m2 & b2 & Hm2 & H2).
  apply PortfolioMore.bind_inv in H2 as (secs2 & c2 & Hs2 & H2).
  apply PortfolioMore.bind_inv in H2 as (cr2 & d2 & _ & H2).
  apply PortfolioMore.bind_inv in H2 as (up2 & e2 & _ & H2).
  unfold ret in H1, H2. injection H1 as <- <-. injection H2 as <- <-.
  unfold assert_defined in Hm1, Hm2.
  destruct (assignContentToSections _ _) as [m|]; [|discriminate].
  injection Hm1 as <- <-. injection Hm2 as <- <-.
  assert (Hsecs : erase_section <$> secs1 = erase_section <$> secs2).
  { eapply compose_loop_env; [|exact Hs1|exact Hs2]. reflexivity. }
  assert (Hsorted :
    erase_section <$> Js.sort (fun a b => order a - order b)%Q secs1 =
    erase_section <$> Js.sort (fun a b => order a - order b)%Q secs2).
  { rewrite !(sort_fmap erase_section _ (fun a b => order a - order b)%Q)
      by reflexivity.
    now rewrite Hsecs. }
  assert (Hnav :
    erase_navigation
      (buildNavigation pid1 (Js.sort (fun a b => order a - order b)%Q secs1)) =
    erase_navigation
      (buildNavigation pid2 (Js.sort (fun a b => order a - order b)%Q secs2))).
  { apply erase_navigation_ids.
    apply (f_equal (fmap section_id)) in Hsorted.
    rewrite <- !list_fmap_compose in Hsorted. exact Hsorted. }
  unfold erase_portfolio.
  cbn [portfolio_id user_id category version meta sections navigation analytics
       meta_title meta_subtitle language theme].
  now rewrite Hsorted, Hnav.
Qed.

End TwoEnvironments.

(** X13: the UUID generator and the clock only determine the generated
    identifiers and timestamps: two compositions of the same input with
    the same options, run with any two generators, clocks and starting
    states, both return, and their portfolios are equal once the
    portfolio id, the block ids, the timestamps and the deep-link
    templates are blanked. *)
Theorem composition_independent_of_environment
    (uuid1 uuid2 iso1 iso2 : nat -> string) (w1 w2 : World)
    (input : list ScoredContent) (options : ComposeOptions) :
  exists p1 w1' p2 w2',
    composePortfolio uuid1 iso1 input options w1 = Some (p1, w1') /\
    composePortfolio uuid2 iso2 input options w2 = Some (p2, w2') /\
    erase_portfolio p1 = erase_portfolio p2.
Proof.
  destruct (ComposeFacts.composePortfolio_shape uuid1 iso1 input options w1)
    as (p1 & w1' & _ & _ & _ & _ & _ & _ & H1 & _).
  destruct (ComposeFacts.composePortfolio_shape uuid2 iso2 input options w2)
    as (p2 & w2' & _ & _ & _ & _ & _ & _ & H2 & _).
  exists p1, w1', p2, w2'. split; [exact H1|]. split; [exact H2|].
  eapply composePortfolio_env; eauto.
Qed.

End EnvFacts.

(* ================================================================= *)
(** * The block types of a composed portfolio *)

Module BlockTypeFacts.

Import Js Composition Spec.

(** Membership in a list that is written out. *)
Ltac in_list :=
  rewrite ?elem_of_cons, ?elem_of_nil;
  first [ tauto
        | let H := fresh in intros H; decompose [or] H; discriminate
        | intuition congruence ].

Lemma selectBlockType_table_aux
    (c : ScoredContent) (sectionId : SectionId) (category : Category) :
  selectBlockType c sectionId category =
  Some
    match type c with
    | ct_pdf | ct_text => bt_expandable_text
    | ct_external_link => bt_external_link
    | t =>
        if (eqb (source c) src_github
            && is_flag (chain (extracted_data c) is_profile))%bool
        then bt_external_link
        else
          match sectionId with
          | s_hook => CATEGORY_HOOK_TYPES category
          | s_credibility => bt_expandable_text
          | s_work => if eqb t ct_code then bt_gallery else bt_media
          | s_process => if eqb t ct_code then bt_expandable_text else bt_timeline
          | s_action => bt_cta
          end
    end.
Proof.
  unfold selectBlockType. cbv zeta.
  generalize (eqb (source c) src_github
              && is_flag (chain (extracted_data c) is_profile))%bool.
  intros profile.
  destruct (type c); FilterFacts.eval_closed; cbv iota; try reflexivity;
    destruct profile; try reflexivity;
    destruct sectionId; reflexivity.
Qed.

(** X14: the decision table of [selectBlockType].  A pdf or text item
    becomes an expandable text and an external link stays one, in every
    section; so does a GitHub profile become an external link; any other
    item gets the hook type of the category in the hook section, an
    expandable text in credibility, a gallery (code) or a media block
    (image, video) in work, an expandable text (code) or a timeline
    (image, video) in process, and a cta in action. *)
Theorem selectBlockType_table
    (c : ScoredContent) (sectionId : SectionId) (category : Category) :
  selectBlockType c sectionId category =
  Some
    match type c with
    | ct_pdf | ct_text => bt_expandable_text
    | ct_external_link => bt_external_link
    | t =>
        if (eqb (source c) src_github
            && is_flag (chain (extracted_data c) is_profile))%bool
        then bt_external_link
        else
          match sectionId with
          | s_hook => CATEGORY_HOOK_TYPES category
          | s_credibility => bt_expandable_text
          | s_work => if eqb t ct_code then bt_gallery else bt_media
          | s_process => if eqb t ct_code then bt_expandable_text else bt_timeline
          | s_action => bt_cta
          end
    end.
Proof. apply selectBlockType_table_aux. Qed.

(** The process filter only admits text and pdf items. *)
Lemma process_filter_types (c : ScoredContent) (category : Category) :
  process_filter c category = true -> type c = ct_text \/ type c = ct_pdf.
Proof.
  unfold process_filter.
  destruct (type c); FilterFacts.eval_closed; cbn; try discriminate; auto.
Qed.

Lemma selected_in_section (c : ScoredContent) (sid : SectionId)
    (category : Category) (bt : BlockType) :
  sid <> s_action ->
  (sid = s_process -> type c = ct_text \/ type c = ct_pdf) ->
  selectBlockType c sid category = Some bt ->
  bt ∈ BlockTypes.section_block_types sid.
Proof.
  intros Hact Hproc. rewrite selectBlockType_table_aux. intros [= <-].
  destruct sid; try done.
  - destruct (type c),
      (eqb (source c) src_github
       && is_flag (chain (extracted_data c) is_profile))%bool, category;
      cbn; in_list.
  - destruct (type c),
      (eqb (source c) src_github
       && is_flag (chain (extracted_data c) is_profile))%bool;
      cbn; in_list.
  - destruct (type c),
      (eqb (source c) src_github
       && is_flag (chain (extracted_data c) is_profile))%bool;
      cbn; FilterFacts.eval_closed; cbv iota; in_list.
  - destruct (Hproc eq_refl) as [-> | ->]; cbn; in_list.
Qed.

Lemma built_from_types m category sid ord sec :
  sid <> s_action ->
  (sid = s_process ->
   forall c : ScoredContent,
     c ∈ assigned_to m sid -> type c = ct_text \/ type c = ct_pdf) ->
  built_from m category sid ord sec ->
  Forall (fun b : Block =>
            block_type b ∈ BlockTypes.section_block_types (section_id sec))
         (blocks sec).
Proof.
  intros Hact Hproc (-> & _ & HF).
  induction HF as [|c b cs bs Hcb _ IH]; constructor.
  - eapply selected_in_section; [exact Hact| |exact Hcb].
    intros Hs. apply (Hproc Hs). left.
  - apply IH. intros Hs c' Hc'. apply (Hproc Hs). now right.
Qed.

(** X15: in the portfolio that [composePortfolio] returns, the blocks of
    the hook section are metric, media, comparison, expandable text or
    external link blocks; those of credibility are expandable texts or
    external links; those of work are media, gallery, expandable text or
    external link blocks; those of process are expandable texts; the
    action block is a cta.  No section holds a scroll container, a
    hotspot media or a timeline block. *)
Theorem portfolio_block_types
    (uuidv4 toISOString : nat -> string) (input : list ScoredContent)
    (options : ComposeOptions) (w : World) :
  exists p w',
    composePortfolio uuidv4 toISOString input options w = Some (p, w') /\
    Forall (fun sec =>
              Forall (fun b : Block =>
                        block_type b ∈
                          BlockTypes.section_block_types (section_id sec) /\
                        block_type b ∉
                          [bt_scroll_container; bt_hotspot_media; bt_timeline])
                     (blocks sec))
           (sections p).
Proof.
  destruct (ComposeFacts.composePortfolio_shape uuidv4 toISOString input options w)
    as (p & w' & m & h & c & k & pr & a & Hp & Hm & Hsecs & Hh & Hc & Hk & Hpr & Ha).
  destruct (TwoPassFacts.assign_run input (opt_category options))
    as (m' & Hm' & Hrun).
  assert (m' = m) as -> by congruence.
  assert (Hproc : forall c0 : ScoredContent, c0 ∈ assigned_to m s_process ->
                             type c0 = ct_text \/ type c0 = ct_pdf).
  { intros c0. rewrite Hrun. intros Hc0.
    eapply process_filter_types, TwoPassFacts.run_process_filter, Hc0. }
  assert (Hnever : forall s bt,
            bt ∈ BlockTypes.section_block_types s ->
            bt ∈ BlockTypes.section_block_types s /\
            bt ∉ [bt_scroll_container; bt_hotspot_media; bt_timeline]).
  { intros s bt Hbt. split; [exact Hbt|].
    destruct s; cbn in Hbt; rewrite ?elem_of_cons, ?elem_of_nil in Hbt;
      decompose [or] Hbt; subst; try done; in_list. }
  assert (Hsec : forall sid ord sec,
            sid <> s_action ->
            built_from m (opt_category options) sid ord sec ->
            Forall (fun b : Block =>
                      block_type b ∈
                        BlockTypes.section_block_types (section_id sec) /\
                      block_type b ∉
                        [bt_scroll_container; bt_hotspot_media; bt_timeline])
                   (blocks sec)).
  { intros sid ord sec Hact Hb.
    eapply Forall_impl; [eapply built_from_types; eauto|].
    - intros ->. exact Hproc.
    - intros b. apply Hnever. }
  assert (Hcta : Forall (fun b : Block =>
                      block_type b ∈
                        BlockTypes.section_block_types (section_id a) /\
                      block_type b ∉
                        [bt_scroll_container; bt_hotspot_media; bt_timeline])
                   (blocks a)).
  { destruct Ha as (Hid & _ & b & Hb & Hty & _). rewrite Hb, Hid.
    constructor; [|constructor]. rewrite Hty. split; cbn; in_list. }
  exists p, w'. split; [exact Hp|]. rewrite Hsecs.
  pose proof (Hsec s_hook _ _ ltac:(done) Hh) as Fh.
  pose proof (Hsec s_credibility _ _ ltac:(done) Hc) as Fc.
  pose proof (Hsec s_work _ _ ltac:(done) Hk) as Fk.
  destruct Hpr as [[-> _]|(x & -> & Hx & _)]; cbn [app].
  - repeat (apply Forall_cons_2; [assumption|]). apply Forall_nil_2.
  - pose proof (Hsec s_process _ _ ltac:(done) Hx) as Fx.
    repeat (apply Forall_cons_2; [assumption|]). apply Forall_nil_2.
Qed.

End BlockTypeFacts.

(* ================================================================= *)
(** * Properties of the ingestion pipeline *)

Module IngestionFacts.

Import Ingestion.

(** A result of [ingestContent] carries a normalized item exactly when
    it is a success. *)
Lemma ingestContent_success h input :
  match ir_normalized (ingestContent h input) with
  | Some n =>
      success (ingestContent h input) = true /\
      ir_content_id (ingestContent h input) = content_id n
  | None => success (ingestContent h input) = false
  end.
Proof. unfold ingestContent. destruct (ingest_try h input); cbn; auto. Qed.

Lemma ingest_loop_run handlers inputs :
  forall i results normalizedContent,
    ingest_loop handlers i inputs results normalizedContent =
    (results ++ imap (fun j input => ingestContent (handlers (i + j)) input) inputs,
     normalizedContent ++
       omap ir_normalized
            (imap (fun j input => ingestContent (handlers (i + j)) input) inputs)).
Proof.
  induction inputs as [|input rest IH]; intros i results normalizedContent;
    cbn [ingest_loop imap omap list_omap].
  - now rewrite !app_nil_r.
  - rewrite IH. replace (i + 0) with i by lia.
    assert (Himap :
      imap (fun j x => ingestContent (handlers (S i + j)) x) rest =
      imap ((fun j x => ingestContent (handlers (i + j)) x) ∘ S) rest).
    { apply imap_ext. intros j x _. cbn. f_equal. f_equal. lia. }
    rewrite Himap.
    pose proof (ingestContent_success (handlers i) input) as Hs.
    destruct (ir_normalized (ingestContent (handlers i) input)) as [n|].
    + destruct Hs as [-> _]. now rewrite <- !app_assoc.
    + rewrite Hs. now rewrite <- app_assoc.
Qed.

Lemma successes_counted (inputs : list RawInput) :
  forall f : nat -> Handlers,
    length (omap ir_normalized
              (imap (fun j input => ingestContent (f j) input) inputs)) =
    length (List.filter success
              (imap (fun j input => ingestContent (f j) input) inputs)).
Proof.
  induction inputs as [|input rest IH]; intros f;
    cbn [imap omap list_omap List.filter length]; [reflexivity|].
  pose proof (ingestContent_success (f 0) input) as Hs.
  destruct (ir_normalized (ingestContent (f 0) input)) as [n|].
  - destruct Hs as [-> _]. cbn [length]. f_equal. apply (IH (f ∘ S)).
  - rewrite Hs. apply (IH (f ∘ S)).
Qed.

Lemma normalized_imap_score Date_parse category (l : list NormalizedContent) :
  forall clock : nat -> Z,
    (fun s : ScoredContent => normalized s)
      <$> imap (fun i c => Scoring.scoreContent Date_parse (clock i) c category) l
    = l.
Proof.
  induction l as [|c l IH]; intros clock; cbn [imap fmap list_fmap];
    [reflexivity|].
  f_equal. apply (IH (clock ∘ S)).
Qed.

(** The counters of a batch. *)
Lemma ingestBatch_counts
    (handlers : nat -> Handlers) (Date_parse : string -> option Z)
    (clock : nat -> Z) (inputs : list RawInput) (category : Category) :
  let r := ingestBatch handlers Date_parse clock inputs category in
  total r = length inputs /\ successful r + failed r = total r.
Proof.
  cbv zeta. unfold ingestBatch. rewrite ingest_loop_run. cbn [app].
  set (rs := imap (fun j input => ingestContent (handlers (0 + j)) input) inputs).
  cbn [total successful failed].
  assert (Hcount : length (omap ir_normalized rs) = length (List.filter success rs))
    by apply successes_counted.
  pose proof (List.filter_length success rs) as Hf.
  assert (Hlen : length rs = length inputs) by apply length_imap.
  split; [reflexivity|lia].
Qed.

(** X16: the counts of [ingestBatch] add up.  There is one result per
    input, in the order of the inputs; the normalized items are those of
    the successful results, in the same order; [successful] counts them,
    [successful + failed = total], and the scored content consists of the
    normalized items, each scored once. *)
Theorem ingestBatch_accounting
    (handlers : nat -> Handlers) (Date_parse : string -> option Z)
    (clock : nat -> Z) (inputs : list RawInput) (category : Category) :
  let r := ingestBatch handlers Date_parse clock inputs category in
  results r = imap (fun i input => ingestContent (handlers i) input) inputs /\
  normalized_content r = omap ir_normalized (results r) /\
  total r = length inputs /\
  successful r = length (List.filter success (results r)) /\
  successful r + failed r = total r /\
  length (scored_content r) = successful r /\
  Permutation ((fun s : ScoredContent => normalized s) <$> scored_content r)
              (normalized_content r).
Proof.
  cbv zeta. unfold ingestBatch. rewrite ingest_loop_run. cbn [app].
  set (rs := imap (fun j input => ingestContent (handlers (0 + j)) input) inputs).
  cbn [results normalized_content total successful failed scored_content].
  assert (Hlen : length rs = length inputs) by apply length_imap.
  assert (Hcount : length (omap ir_normalized rs) = length (List.filter success rs))
    by apply successes_counted.
  assert (Hle : length (omap ir_normalized rs) <= length inputs).
  { rewrite Hcount, <- Hlen. pose proof (List.filter_length success rs). lia. }
  assert (Hperm :
    Permutation
      ((fun s : ScoredContent => normalized s)
         <$> Scoring.scoreContentBatch Date_parse clock
               (omap ir_normalized rs) category)
      (omap ir_normalized rs)).
  { unfold Scoring.scoreContentBatch.
    rewrite (SortFacts.sort_perm _ _), normalized_imap_score. reflexivity. }
  repeat split; try done; try lia.
  rewrite <- (Permutation_length Hperm). now rewrite length_fmap.
Qed.

(** *** Validation and ingestion *)

Lemma validateInput_valid URL_parses input :
  valid (validateInput URL_parses input) = true ->
  match in_type input with
  | in_url => Js.is_str (url input) = true
  | in_image | in_video | in_pdf => is_Some (file input)
  | in_text => Js.is_str (text input) = true
  end.
Proof.
  unfold validateInput. cbv zeta.
  destruct (in_type input); cbn [InputType_str Js.truthy_str negb app];
    repeat match goal with
           | |- context [Js.is_str ?o] => destruct (Js.is_str o)
           | |- context [file input] => destruct (file input)
           | |- context [URL_parses ?s] => destruct (URL_parses s)
           end; cbn; try discriminate; eauto.
Qed.

(** X17: an input that [validateInput] accepts does not fail the
    required-field checks of [ingestContent]: the outcome of the
    ingestion is the outcome of the handler for the type of the input. *)
Theorem valid_input_reaches_handler
    (URL_parses : string -> bool) (h : Handlers) (input : RawInput) :
  valid (validateInput URL_parses input) = true ->
  handler_call h input = Some (ingest_try h input).
Proof.
  intros Hvalid. apply validateInput_valid in Hvalid.
  unfold handler_call, ingest_try, processUrl.
  destruct (in_type input);
    [ now rewrite Hvalid
    | destruct Hvalid as [? ->]; reflexivity ..
    | now rewrite Hvalid ].
Qed.

Lemma valid_input_reaches_handler_witness :
  handler_call Fixtures.offline Fixtures.typed_text =
  Some (ingest_try Fixtures.offline Fixtures.typed_text).
Proof.
  apply (valid_input_reaches_handler (fun _ => true)). reflexivity.
Defined.

Lemma validate_loop_run URL_parses inputs :
  forall acc : list RawInput * list (RawInput * list string),
    foldl (fun acc input =>
             if valid (validateInput URL_parses input)
             then (fst acc ++ [input], snd acc)
             else (fst acc,
                   snd acc ++ [(input, errors (validateInput URL_parses input))]))
          acc inputs =
    (fst acc ++ List.filter (fun i => valid (validateInput URL_parses i)) inputs,
     snd acc ++
       ((fun i => (i, errors (validateInput URL_parses i)))
          <$> List.filter (fun i => negb (valid (validateInput URL_parses i)))
                inputs)).
Proof.
  induction inputs as [|input rest IH]; intros [vs ivs]; cbn [foldl List.filter fst snd].
  - now rewrite !app_nil_r.
  - rewrite IH. destruct (valid (validateInput URL_parses input)); cbn;
      now rewrite <- !app_assoc.
Qed.

(** The two lists of [validateBatch] and its flag. *)
Lemma validateBatch_lists (URL_parses : string -> bool) (inputs : list RawInput) :
  let r := validateBatch URL_parses inputs in
  length (validInputs r) + length (invalidInputs r) = length inputs /\
  all_valid r = forallb (fun i => valid (validateInput URL_parses i)) inputs.
Proof.
  cbv zeta. unfold validateBatch.
  change (foldl _ ([], []) inputs) with
    (foldl (fun acc input =>
              if valid (validateInput URL_parses input)
              then (fst acc ++ [input], snd acc)
              else (fst acc,
                    snd acc ++ [(input, errors (validateInput URL_parses input))]))
           (([], []) : list RawInput * list (RawInput * list string)) inputs).
  rewrite validate_loop_run. cbn [fst snd app validInputs invalidInputs all_valid].
  rewrite length_fmap. split.
  - apply (List.filter_length (fun i => valid (validateInput URL_parses i))).
  - induction inputs as [|i l IH]; cbn [List.filter forallb]; [reflexivity|].
    destruct (valid (validateInput URL_parses i)); cbn [negb andb length];
      [exact IH|reflexivity].
Qed.

(** X18: [validateBatch] sorts every input into exactly one of its two
    lists and keeps the order: the valid inputs are those that
    [validateInput] accepts, the invalid ones are the others, each with
    its non-empty list of errors, and the batch is valid exactly when
    every input is. *)
Theorem validateBatch_partition
    (URL_parses : string -> bool) (inputs : list RawInput) :
  let r := validateBatch URL_parses inputs in
  let ok := fun i => valid (validateInput URL_parses i) in
  validInputs r = List.filter ok inputs /\
  invalidInputs r =
    ((fun i => (i, errors (validateInput URL_parses i)))
       <$> List.filter (fun i => negb (ok i)) inputs) /\
  Forall (fun ie => snd ie <> []) (invalidInputs r) /\
  length (validInputs r) + length (invalidInputs r) = length inputs /\
  all_valid r = forallb ok inputs.
Proof.
  cbv zeta. unfold validateBatch.
  change (foldl _ ([], []) inputs) with
    (foldl (fun acc input =>
              if valid (validateInput URL_parses input)
              then (fst acc ++ [input], snd acc)
              else (fst acc,
                    snd acc ++ [(input, errors (validateInput URL_parses input))]))
           (([], []) : list RawInput * list (RawInput * list string)) inputs).
  rewrite validate_loop_run. cbn [fst snd app validInputs invalidInputs all_valid].
  split; [reflexivity|]. split; [reflexivity|]. split; [|split].
  - apply Forall_fmap, Forall_forall. intros i Hi. cbn.
    apply list_elem_of_In, filter_In in Hi as [_ Hi].
    intros H. change (errors (validateInput URL_parses i) = []) in H.
    change (valid (validateInput URL_parses i))
      with (Nat.eqb (length (errors (validateInput URL_parses i))) 0) in Hi.
    now rewrite H in Hi.
  - rewrite length_fmap.
    apply (List.filter_length (fun i => valid (validateInput URL_parses i))).
  - rewrite length_fmap.
    induction inputs as [|i l IH]; cbn [List.filter forallb]; [reflexivity|].
    destruct (valid (validateInput URL_parses i)); cbn [negb andb length];
      [exact IH|reflexivity].
Qed.

End IngestionFacts.

(* ================================================================= *)
(** * Properties of the route that generates a portfolio *)

Module ApiFacts.

Import Ingestion Api.

Lemma foldl_snoc {A B : Type} (f : A -> B) (l : list A) :
  forall acc : list B, foldl (fun acc x => acc ++ [f x]) acc l = acc ++ (f <$> l).
Proof.
  induction l as [|x l IH]; intros acc; cbn [foldl fmap list_fmap].
  - now rewrite app_nil_r.
  - now rewrite IH, <- app_assoc.
Qed.

Lemma foldl_sum {A : Type} (f : A -> nat) (l : list A) :
  forall a : nat, foldl (fun sum x => sum + f x) a l = a + sum_list (f <$> l).
Proof.
  induction l as [|x l IH]; intros a; cbn [foldl fmap list_fmap sum_list sum_list_with].
  - lia.
  - rewrite IH. cbn. lia.
Qed.

(** The inputs built from the files: those with a recognised MIME type. *)
Lemma build_raw_inputs_run (body : GenerateBody) (files : list MulterFile) :
  build_raw_inputs body files =
    (url_input <$> default [] (gb_urls body)) ++
    (text_input <$> default [] (gb_texts body)) ++
    omap (fun f => (fun inputType => file_input inputType f)
                     <$> getFileInputType (mf_mimetype f)) files.
Proof.
  unfold build_raw_inputs. cbv zeta.
  set (start := match gb_texts body with
                | Some texts => _
                | None => _
                end).
  assert (Hstart : start = (url_input <$> default [] (gb_urls body)) ++
                           (text_input <$> default [] (gb_texts body))).
  { subst start. destruct (gb_urls body) as [urls|], (gb_texts body) as [texts|];
      cbn [default]; rewrite ?foldl_snoc; cbn [app fmap list_fmap];
      now rewrite ?app_nil_r. }
  rewrite app_assoc, <- Hstart. clear Hstart. generalize start. clear start.
  induction files as [|f files IH]; intros start; cbn [foldl omap list_omap].
  - now rewrite app_nil_r.
  - rewrite IH. destruct (getFileInputType (mf_mimetype f)) as [t|]; cbn [fmap option_fmap option_map].
    + now rewrite <- app_assoc.
    + reflexivity.
Qed.

Lemma url_input_valid URL_parses (u : UrlInput) :
  valid (validateInput URL_parses (url_input u)) =
  Js.truthy_str (ui_url u) && URL_parses (ui_url u).
Proof.
  unfold validateInput, url_input. cbn.
  destruct (Js.truthy_str (ui_url u)); cbn; [|reflexivity].
  now destruct (URL_parses (ui_url u)).
Qed.

Lemma text_input_valid URL_parses (t : TextInput) :
  valid (validateInput URL_parses (text_input t)) = Js.truthy_str (ti_text t).
Proof.
  unfold validateInput, text_input. cbn. now destruct (Js.truthy_str (ti_text t)).
Qed.

Lemma file_input_valid URL_parses (f : MulterFile) (t : InputType) :
  getFileInputType (mf_mimetype f) = Some t ->
  valid (validateInput URL_parses (file_input t f)) = true.
Proof.
  unfold getFileInputType. intros H.
  repeat match type of H with
         | (if ?b then _ else _) = _ => destruct b
         end; inversion H; reflexivity.
Qed.

Lemma forallb_pointwise {A : Type} (f g : A -> bool) (l : list A) :
  (forall x, f x = g x) -> forallb f l = forallb g l.
Proof.
  intros H. induction l as [|x l IH]; cbn; [reflexivity|]. now rewrite H, IH.
Qed.

Lemma forallb_fmap {A B : Type} (g : A -> B) (f : B -> bool) (l : list A) :
  forallb f (g <$> l) = forallb (fun x => f (g x)) l.
Proof. induction l as [|x l IH]; cbn; [reflexivity|]. now rewrite IH. Qed.

(** X19: of the inputs that the route builds from a request only URLs
    and texts can fail the validation: the batch is valid exactly when
    every URL is non-empty and parses and every text is non-empty; an
    uploaded file either yields a valid input or, when its MIME type is
    not recognised, no input at all. *)
Theorem built_inputs_validity
    (URL_parses : string -> bool) (body : GenerateBody) (files : list MulterFile) :
  all_valid (validateBatch URL_parses (build_raw_inputs body files)) =
    forallb (fun u => Js.truthy_str (ui_url u) && URL_parses (ui_url u))
            (default [] (gb_urls body))
    && forallb (fun t => Js.truthy_str (ti_text t)) (default [] (gb_texts body)).
Proof.
  destruct (IngestionFacts.validateBatch_lists URL_parses (build_raw_inputs body files))
    as (_ & ->).
  rewrite build_raw_inputs_run, !forallb_app, !forallb_fmap.
  rewrite (forallb_pointwise _ _ _ (url_input_valid URL_parses)).
  rewrite (forallb_pointwise _ _ _ (text_input_valid URL_parses)).
  assert (Hfiles :
    forallb (fun i => valid (validateInput URL_parses i))
      (omap (fun f => (fun inputType => file_input inputType f)
                        <$> getFileInputType (mf_mimetype f)) files) = true).
  { induction files as [|f files IH]; cbn [omap list_omap]; [reflexivity|].
    destruct (getFileInputType (mf_mimetype f)) as [t|] eqn:E;
      cbn [fmap option_fmap option_map]; [|exact IH].
    cbn [forallb]. now rewrite (file_input_valid URL_parses f t E), IH. }
  rewrite Hfiles. now rewrite andb_true_r.
Qed.

(** X20: the route never fails after the request passed the schema: it
    answers with a portfolio of four or five sections and between 1 and
    14 blocks for the user and the category of the request, and the
    inputs it reports split into the processed ones, the failed ones and
    those that the validation rejected, which are counted in neither
    [processed] nor [failed]. *)
Theorem generate_summary
    (URL_parses : string -> bool) (handlers : nat -> Handlers)
    (Date_parse : string -> option Z) (clock : nat -> Z)
    (uuidv4 toISOString : nat -> string)
    (body : GenerateBody) (files : list MulterFile) (w : World) :
  exists r w',
    generate URL_parses handlers Date_parse clock uuidv4 toISOString body files w
      = Some (r, w') /\
    let s := processing_summary r in
    let v := validateBatch URL_parses (build_raw_inputs body files) in
    total_inputs s = processed s + ps_failed s + length (invalidInputs v) /\
    4 <= sections_generated s <= 5 /\
    1 <= blocks_generated s <= 14 /\
    user_id (gr_portfolio r) = gb_user_id body /\
    category (gr_portfolio r) = gb_category body.
Proof.
  unfold generate. cbv zeta.
  set (v := validateBatch URL_parses (build_raw_inputs body files)).
  set (ing := ingestBatch handlers Date_parse clock (validInputs v) (gb_category body)).
  set (options := {| userId := gb_user_id body |}).
  destruct (PortfolioMore.shape_sizes uuidv4 toISOString
              (scored_content ing) options w)
    as (p & w' & nh & nc & nk & np & Hp & Hsizes & Hh & Hc & Hk & Hnp).
  destruct (PortfolioMore.composePortfolio_fields uuidv4 toISOString _ _ _ _ _ Hp)
    as (Huser & Hcat & _).
  exists {| gr_portfolio := p;
            processing_summary :=
              {| total_inputs := length (build_raw_inputs body files);
                 processed := successful ing;
                 ps_failed := failed ing;
                 sections_generated := length (sections p);
                 blocks_generated :=
                   foldl (fun sum s => sum + length (blocks s)) 0 (sections p) |} |},
         w'.
  split.
  { rewrite (ComposeFacts.bind_some _ _ _ _ _ Hp). reflexivity. }
  cbn [processing_summary total_inputs processed ps_failed sections_generated
       blocks_generated gr_portfolio].
  destruct (IngestionFacts.ingestBatch_counts handlers Date_parse clock (validInputs v)
              (gb_category body))
    as (Htotal & Hsf).
  fold ing in Htotal, Hsf.
  destruct (IngestionFacts.validateBatch_lists URL_parses (build_raw_inputs body files))
    as (Hlen & _).
  fold v in Hlen.
  rewrite foldl_sum, Hsizes.
  rewrite <- (length_fmap (fun sec => length (blocks sec)) (sections p)), Hsizes.
  split; [lia|].
  destruct Hnp as [->|(n & -> & Hn)]; cbn; unfold id; repeat split; try lia;
    assumption.
Qed.

End ApiFacts.

(* ================================================================= *)
(** * Platforms and the routing of URLs *)

Module PlatformFacts.

Import Ingestion Platform.

(** X21: [processUrl] agrees with [isExtractable] and
    [getContentType]: a URL goes to the YouTube or the GitHub extractor
    exactly when its platform is extractable, according to the content
    type of the platform, and to the external-link handler otherwise. *)
Theorem route_agrees_with_platform
    (h : Handlers) (u : string) (meta : option UserMetadata) :
  let platform := detectPlatform h u in
  route_url h u meta =
    (if isExtractable platform
     then match getContentType platform with
          | ct_video => processYouTubeURL h u
          | _ => processGitHubURL h u
          end
     else processExternalLink h u platform meta) /\
  isExtractable platform = negb (eqb (getContentType platform) ct_external_link).
Proof.
  cbv zeta. unfold route_url. now destruct (detectPlatform h u).
Qed.

End PlatformFacts.

(* ================================================================= *)
(** * Properties of the text helpers *)

Module TextFacts.

Import Text.

Lemma length_append (s1 s2 : string) :
  String.length (s1 ++ s2)%string = String.length s1 + String.length s2.
Proof.
  induction s1 as [|a s1 IH]; [reflexivity|].
  change (S (String.length (s1 ++ s2)%string) =
          S (String.length s1 + String.length s2)).
  now rewrite IH.
Qed.

Lemma length_substring (n : nat) :
  forall s : string, String.length (String.substring 0 n s) = Nat.min n (String.length s).
Proof.
  induction n as [|n IH]; intros [|a s]; try reflexivity.
  change (S (String.length (String.substring 0 n s)) =
          S (Nat.min n (String.length s))).
  now rewrite IH.
Qed.

Lemma substring_prefix (n : nat) :
  forall s : string, String.prefix (String.substring 0 n s) s = true.
Proof.
  induction n as [|n IH]; intros [|a s]; cbn; try reflexivity.
  destruct (Ascii.ascii_dec a a) as [_|Hn]; [apply IH|now destruct Hn].
Qed.

Lemma truncate_short (str : string) (maxLength : Z) :
  (Z.of_nat (String.length str) <= maxLength)%Z -> truncate str maxLength = str.
Proof.
  intros H. unfold truncate.
  destruct (Z.leb_spec (Z.of_nat (String.length str)) maxLength); [reflexivity|lia].
Qed.

Lemma truncate_long (str : string) (maxLength : Z) :
  (maxLength < Z.of_nat (String.length str))%Z ->
  truncate str maxLength =
    (String.substring 0 (Z.to_nat (maxLength - 3)) str ++ "...")%string.
Proof.
  intros H. unfold truncate.
  destruct (Z.leb_spec (Z.of_nat (String.length str)) maxLength); [lia|reflexivity].
Qed.

(** X22: [truncate] returns the string itself or a prefix of it followed
    by three dots; the result is at most [maxLength] characters long when
    [maxLength] is at least 3, and is the three dots alone, longer than
    asked for, when a string is cut to fewer than 3 characters; cutting
    a second time changes nothing. *)
Theorem truncate_length (str : string) (maxLength : Z) :
  (Z.of_nat (String.length (truncate str maxLength)) <= Z.max maxLength 3)%Z /\
  (truncate str maxLength = str \/
   exists p, String.prefix p str = true /\
             truncate str maxLength = (p ++ "...")%string) /\
  ((maxLength < 3)%Z -> (maxLength < Z.of_nat (String.length str))%Z ->
   truncate str maxLength = "...") /\
  truncate (truncate str maxLength) maxLength = truncate str maxLength.
Proof.
  destruct (Z_le_gt_dec (Z.of_nat (String.length str)) maxLength) as [Hle|Hgt].
  - rewrite !(truncate_short str maxLength Hle).
    repeat split; [lia|now left|lia].
  - assert (Hlt : (maxLength < Z.of_nat (String.length str))%Z) by lia.
    rewrite !(truncate_long str maxLength Hlt).
    set (p := String.substring 0 (Z.to_nat (maxLength - 3)) str).
    assert (Hp : String.length p = Nat.min (Z.to_nat (maxLength - 3)) (String.length str))
      by apply length_substring.
    assert (Hlen : String.length (p ++ "...")%string = String.length p + 3)
      by apply length_append.
    assert (Hsmall : (maxLength < 3)%Z -> p = ""%string).
    { intros H. subst p. replace (Z.to_nat (maxLength - 3)) with 0 by lia.
      now destruct str. }
    repeat split.
    + cbn [String.length] in Hlen. lia.
    + right. exists p. split; [apply substring_prefix|reflexivity].
    + intros H _. now rewrite (Hsmall H).
    + destruct (Z_le_gt_dec (Z.of_nat (String.length (p ++ "...")%string)) maxLength)
        as [Hle2|Hgt2].
      * now apply truncate_short.
      * rewrite truncate_long by lia.
        assert (H3 : (maxLength < 3)%Z) by (cbn [String.length] in Hlen; lia).
        rewrite (Hsmall H3).
        replace (Z.to_nat (maxLength - 3)) with 0 by lia. reflexivity.
Qed.

(** *** Key phrases *)






End TextFacts.
